(** * gotrue-js: token lifecycle and session persistence of [User]

    A shallow embedding of [src/user.ts], together with [src/api.ts] and
    the client of [src/index.ts], and the proofs of its specification and
    of further properties of the code.

    Conventions.
    - A JavaScript string is a Rocq [string]; the "binary string" produced by
      base64 decoding is the string of its bytes.
    - A JavaScript number is [NaN] or an exact integer [Num z]: every number
      the program computes with is a count of seconds or milliseconds, far
      inside the range where IEEE doubles are exact and print as plain
      decimals.
    - A plain object is an association list in insertion order (the engine
      lists integer-like keys first; no statement depends on the order).
    - A statement completes with [Return] or [Throw]; the conversions the
      program applies implicitly ([ToString] in template literals and
      property keys, [ToNumber] in arithmetic) throw where the language makes
      them throw.
    - The options of a request, the [API] and the client follow their
      TypeScript declarations: a record for an interface or a class.
    - An [async] function is given by its steps: what it does up to an
      [await], and how it goes on from what the [await] delivers.
    - Platform built-ins whose behaviour the program does not fix
      ([JSON.parse], [JSON.stringify], [TextDecoder], the text of engine
      exceptions) are the fields of the class [Host]. *)

From Stdlib Require Import ZArith NArith Ascii String List Bool Lia.
From Stdlib Require Import DecimalString ZifyNat.
From stdpp Require Import base option list strings gmap.

(** ** Base64 (RFC 4648) and the platform decoder [atob] *)

Module Base64.

Local Open Scope N_scope.

Definition alphabet : string :=
  "ABCDEFGHIJKLMNOPQRSTUVWXYZabcdefghijklmnopqrstuvwxyz0123456789+/".

(** The URL-safe alphabet of RFC 4648, section 5. *)
Definition url_alphabet : string :=
  "ABCDEFGHIJKLMNOPQRSTUVWXYZabcdefghijklmnopqrstuvwxyz0123456789-_".

Definition pad_char : ascii := "="%char.

Definition digit (alpha : string) (v : N) : ascii :=
  match String.get (N.to_nat v) alpha with
  | Some c => c
  | None => pad_char
  end.

Fixpoint index_from (c : ascii) (alpha : string) (i : N) : option N :=
  match alpha with
  | EmptyString => None
  | String a rest =>
      if Ascii.eqb a c then Some i else index_from c rest (N.succ i)
  end.

Definition value (c : ascii) : option N := index_from c alphabet 0.

Definition code (c : ascii) : N := N_of_ascii c.

(** The 6-bit groups of a byte string, most significant bits first; a final
    group of one or two bytes is completed with zero bits. *)
Fixpoint sextets (bs : string) : list N :=
  match bs with
  | EmptyString => []
  | String x EmptyString =>
      let n := code x in [n / 4; (n mod 4) * 16]
  | String x (String y EmptyString) =>
      let n := code x * 256 + code y in
      [n / 1024; (n / 16) mod 64; (n mod 16) * 4]
  | String x (String y (String z rest)) =>
      let n := code x * 65536 + code y * 256 + code z in
      n / 262144 :: (n / 4096) mod 64 :: (n / 64) mod 64 :: n mod 64
        :: sextets rest
  end.

Fixpoint padding (bs : string) : string :=
  match bs with
  | EmptyString => EmptyString
  | String _ EmptyString => "=="
  | String _ (String _ EmptyString) => "="
  | String _ (String _ (String _ rest)) => padding rest
  end.

Fixpoint digits (alpha : string) (vs : list N) : string :=
  match vs with
  | [] => EmptyString
  | v :: vs' => String (digit alpha v) (digits alpha vs')
  end.

(** Standard base64 with padding (RFC 4648, section 4). *)
Definition encode (bs : string) : string :=
  digits alphabet (sextets bs) +:+ padding bs.

(** base64url without padding, the encoding of the segments of a JWT. *)
Definition encode_url (bs : string) : string :=
  digits url_alphabet (sextets bs).

(** base64url with padding kept. *)
Definition encode_url_padded (bs : string) : string :=
  digits url_alphabet (sextets bs) +:+ padding bs.

(** [atob]: the "forgiving-base64 decode" of the WHATWG Infra standard. *)

Definition is_whitespace (c : ascii) : bool :=
  let n := code c in
  (n =? 9) || (n =? 10) || (n =? 12) || (n =? 13) || (n =? 32).

Fixpoint remove_whitespace (s : string) : string :=
  match s with
  | EmptyString => EmptyString
  | String c rest =>
      if is_whitespace c then remove_whitespace rest
      else String c (remove_whitespace rest)
  end.

(** Remove one or two trailing [=]. *)
Fixpoint drop_trailing_pad (s : string) : string :=
  match s with
  | EmptyString => EmptyString
  | String c EmptyString =>
      if Ascii.eqb c pad_char then EmptyString else s
  | String c (String d EmptyString) =>
      if Ascii.eqb d pad_char
      then (if Ascii.eqb c pad_char then EmptyString else String c EmptyString)
      else s
  | String c rest => String c (drop_trailing_pad rest)
  end.

Fixpoint values (s : string) : option (list N) :=
  match s with
  | EmptyString => Some []
  | String c rest =>
      match value c, values rest with
      | Some v, Some vs => Some (v :: vs)
      | _, _ => None
      end
  end.

Definition byte (n : N) : ascii := ascii_of_N (n mod 256).

Fixpoint bytes_of (vs : list N) : string :=
  match vs with
  | a :: b :: c :: d :: rest =>
      let n := a * 262144 + b * 4096 + c * 64 + d in
      String (byte (n / 65536))
        (String (byte (n / 256)) (String (byte n) (bytes_of rest)))
  | [a; b; c] =>
      let n := (a * 4096 + b * 64 + c) / 4 in
      String (byte (n / 256)) (String (byte n) EmptyString)
  | [a; b] => String (byte ((a * 64 + b) / 16)) EmptyString
  | _ => EmptyString
  end.

Definition atob (data : string) : option string :=
  let data := remove_whitespace data in
  let data :=
    if (N.of_nat (String.length data) mod 4 =? 0)
    then drop_trailing_pad data else data in
  if (N.of_nat (String.length data) mod 4 =? 1) then None
  else bytes_of <$> values data.

(** A string of base64 digits: no whitespace and no padding in it. *)
Definition plain (s : string) : Prop :=
  Forall (fun c => is_whitespace c = false /\ Ascii.eqb c pad_char = false)
    (list_ascii_of_string s).

(** The three paddings, by the number of digits they follow. *)
Inductive padded_by : nat -> string -> Prop :=
| padded_0 : padded_by 0%nat EmptyString
| padded_1 : padded_by 1%nat "="
| padded_2 : padded_by 2%nat "==".

End Base64.

(** ** JavaScript values *)

Inductive number :=
| NaN
| Num (z : Z).

(** The values the program handles are JSON data. *)
#[warnings="-register-all"]
Inductive Value :=
| VUndefined
| VNull
| VBool (b : bool)
| VNumber (n : number)
| VString (s : string)
| VObject (props : list (string * Value))
| VArray (items : list Value).

(** A plain object: its own enumerable properties in insertion order. *)
Abbreviation Object := (list (string * Value)).

Fixpoint lookup_prop (k : string) (o : Object) : option Value :=
  match o with
  | [] => None
  | (k', v) :: o' => if String.eqb k' k then Some v else lookup_prop k o'
  end.

(** [o[k] = v]: an existing property keeps its place, a new one is added
    last. *)
Fixpoint assign (k : string) (v : Value) (o : Object) : Object :=
  match o with
  | [] => [(k, v)]
  | (k', v') :: o' =>
      if String.eqb k' k then (k, v) :: o' else (k', v') :: assign k v o'
  end.

Definition own_keys (o : Object) : list string := map fst o.

Definition has_own (k : string) (o : Object) : bool :=
  bool_decide (k ∈ own_keys o).

(** [v.k] for a value that is neither [null] nor [undefined] and a name [k]
    that no built-in prototype defines (every name the program reads is
    such a name): the own property, else [undefined]. *)
Definition get (v : Value) (k : string) : Value :=
  match v with
  | VObject o => default VUndefined (lookup_prop k o)
  | _ => VUndefined
  end.

(** [v.k = x] on an object. *)
Definition set (v : Value) (k : string) (x : Value) : Value :=
  match v with
  | VObject o => VObject (assign k x o)
  | _ => v
  end.

Definition is_nullish (v : Value) : bool :=
  match v with
  | VUndefined | VNull => true
  | _ => false
  end.

(** ToBoolean. *)
Definition truthy (v : Value) : bool :=
  match v with
  | VUndefined | VNull => false
  | VBool b => b
  | VNumber NaN => false
  | VNumber (Num z) => negb (z =? 0)%Z
  | VString s => negb (String.eqb s EmptyString)
  | VObject _ | VArray _ => true
  end.

Definition number_sub (a b : number) : number :=
  match a, b with
  | Num x, Num y => Num (x - y)
  | _, _ => NaN
  end.

Definition number_mul (a b : number) : number :=
  match a, b with
  | Num x, Num y => Num (x * y)
  | _, _ => NaN
  end.

(** [a < b]: false as soon as one side is [NaN]. *)
Definition number_lt (a b : number) : bool :=
  match a, b with
  | Num x, Num y => (x <? y)%Z
  | _, _ => false
  end.

(** Number::toString, in the range where it prints plain decimals. *)
Definition Number_toString (n : number) : string :=
  match n with
  | NaN => "NaN"
  | Num z => NilZero.string_of_int (Z.to_int z)
  end.

(** ** Exceptions *)

Inductive ErrorClass :=
| Error
| TypeError
| SyntaxError
| InvalidCharacterError
| HTTPError
| TextHTTPError
| JSONHTTPError.

(** An exception object: its class, its [message], and the [json] body a
    [JSONHTTPError] carries ([undefined] on the other classes). *)
Record JSError := mkError {
  cls : ErrorClass;
  message : Value;
  json : Value
}.

Definition new_Error (msg : string) : JSError :=
  mkError Error (VString msg) VUndefined.

Definition name (e : JSError) : string :=
  match cls e with
  | Error => "Error"
  | TypeError => "TypeError"
  | SyntaxError => "SyntaxError"
  | InvalidCharacterError => "InvalidCharacterError"
  | HTTPError => "HTTPError"
  | TextHTTPError => "TextHTTPError"
  | JSONHTTPError => "JSONHTTPError"
  end.

Definition instanceof_JSONHTTPError (e : JSError) : bool :=
  match cls e with
  | JSONHTTPError => true
  | _ => false
  end.

(** A statement completes normally with a value or throws. *)
Inductive Completion (A : Type) :=
| Return (a : A)
| Throw (e : JSError).

Arguments Return {A} a.
Arguments Throw {A} e.

#[global] Instance Completion_ret : MRet Completion := @Return.

#[global] Instance Completion_bind : MBind Completion :=
  fun A B f c =>
    match c with
    | Return a => f a
    | Throw e => Throw e
    end.

(** [try { c } catch (e) { h e }]. *)
Definition try_catch {A} (c : Completion A) (h : JSError -> Completion A)
  : Completion A :=
  match c with
  | Return a => Return a
  | Throw e => h e
  end.

(** The type errors the program can run into. *)
Inductive Fault :=
| ReadOfNullish (base : Value) (prop : string)
| NotAFunction (prop : string)
| DestructureOfNullish (base : Value)
| NotConvertible (v : Value).

(** ** The host platform *)

Class Host := {
  (** [typeof atob === 'function'] *)
  atob_defined : bool;
  (** message of the exception [atob] throws on malformed input *)
  atob_error : string;
  (** [Buffer.from(s, 'base64').toString('binary')] *)
  Buffer_from_base64 : string -> string;
  (** [new TextDecoder().decode(bytes)]; [None] when it throws *)
  TextDecoder_decode : string -> option string;
  (** [JSON.parse]: the message of the [SyntaxError], or the value *)
  JSON_parse : string -> string + Value;
  JSON_stringify : Value -> string;
  (** ToNumber on a string *)
  StringToNumber : string -> number;
  TypeError_message : Fault -> string
}.

Section Conversions.
Context `{Host}.

Definition new_TypeError (f : Fault) : JSError :=
  mkError TypeError (VString (TypeError_message f)) VUndefined.

(** [v.k] as an expression: reading a property of [null] or [undefined]
    throws. *)
Definition read (v : Value) (k : string) : Completion Value :=
  if is_nullish v then Throw (new_TypeError (ReadOfNullish v k))
  else Return (get v k).

(** ToString. An object whose own [toString] property hides the inherited
    method (JSON data can have one, and it is no function) cannot be
    converted. *)
Fixpoint ToString (v : Value) : Completion string :=
  match v with
  | VUndefined => Return "undefined"
  | VNull => Return "null"
  | VBool true => Return "true"
  | VBool false => Return "false"
  | VNumber n => Return (Number_toString n)
  | VString s => Return s
  | VObject o =>
      if has_own "toString" o then Throw (new_TypeError (NotConvertible v))
      else Return "[object Object]"
  | VArray items =>
      parts ←
        (fix elements (l : list Value) : Completion (list string) :=
           match l with
           | [] => Return []
           | x :: l' =>
               part ← (if is_nullish x then Return EmptyString
                       else ToString x);
               parts ← elements l';
               Return (part :: parts)
           end) items;
      Return (String.concat "," parts)
  end.

(** ToNumber. *)
Definition ToNumber (v : Value) : Completion number :=
  match v with
  | VUndefined => Return NaN
  | VNull => Return (Num 0)
  | VBool b => Return (Num (if b then 1 else 0))
  | VNumber n => Return n
  | VString s => Return (StringToNumber s)
  | VObject o =>
      if has_own "toString" o then Throw (new_TypeError (NotConvertible v))
      else Return NaN
  | VArray _ => s ← ToString v; Return (StringToNumber s)
  end.

(** [Error.prototype.toString], which a template literal applies. *)
Definition Error_toString (e : JSError) : Completion string :=
  msg ←
    match message e with
    | VUndefined => Return EmptyString
    | m => ToString m
    end;
  Return
    (if String.eqb msg EmptyString then name e else name e +:+ ": " +:+ msg).

End Conversions.

(** ** Prototype chains

    [k in o] also finds what [o] inherits. A plain object inherits the
    members of [Object.prototype]; a [User] inherits those of
    [User.prototype] as well. *)

Definition Object_prototype : list string :=
  ["constructor"; "__defineGetter__"; "__defineSetter__"; "hasOwnProperty";
   "__lookupGetter__"; "__lookupSetter__"; "isPrototypeOf";
   "propertyIsEnumerable"; "toString"; "valueOf"; "__proto__";
   "toLocaleString"].

(** The members of [class User], in source order. *)
Definition User_prototype : list string :=
  ["constructor"; "admin"; "update"; "jwt"; "logout"; "_refreshToken";
   "_request"; "getUserData"; "_saveUserData"; "_processTokenResponse";
   "_refreshSavedSession"; "_details"; "_saveSession"; "tokenDetails";
   "clearSession"].

Definition in_Object_prototype (k : string) : bool :=
  bool_decide (k ∈ Object_prototype).

Definition in_User_prototype (k : string) : bool :=
  bool_decide (k ∈ User_prototype) || in_Object_prototype k.

(** [k in o] for an object literal [o] with the own keys [own]. *)
Definition key_in (own : list string) (k : string) : bool :=
  bool_decide (k ∈ own) || in_Object_prototype k.

(** ** Module constants of [user.ts] *)

Definition ExpiryMargin : Z := 60 * 1000.
Definition storageKey : string := "gotrue.user".
Definition forbiddenUpdateAttributes : list string :=
  ["api"; "token"; "audience"; "url"].
Definition forbiddenSaveAttributes : list string := ["api"].

(** ** String helpers *)

(** [s.split(sep)] for a one-character separator. *)
Fixpoint split_on (sep : ascii) (s : string) : list string :=
  match s with
  | EmptyString => [EmptyString]
  | String c rest =>
      if Ascii.eqb c sep then EmptyString :: split_on sep rest
      else
        match split_on sep rest with
        | seg :: segs => String c seg :: segs
        | [] => [String c EmptyString]
        end
  end.

(** [s.replace(/from/g, to)] for single characters. *)
Fixpoint replace_all (from to : ascii) (s : string) : string :=
  match s with
  | EmptyString => EmptyString
  | String c rest =>
      String (if Ascii.eqb c from then to else c) (replace_all from to rest)
  end.

(** [hay.includes(needle)]. *)
Fixpoint includes (needle hay : string) : bool :=
  String.prefix needle hay ||
  match hay with
  | EmptyString => false
  | String _ rest => includes needle rest
  end.

(** [s] contains the character [c]. *)
Fixpoint has_char (c : ascii) (s : string) : bool :=
  match s with
  | EmptyString => false
  | String a rest => Ascii.eqb a c || has_char c rest
  end.

(** The two replacements of [urlBase64Decode]. *)
Definition translate (s : string) : string :=
  replace_all "_" "/" (replace_all "-" "+" s).

(** ** Token codec *)

Section Codec.
Context `{Host}.

Definition base64Decode (base64 : string) : Completion string :=
  if atob_defined then
    match Base64.atob base64 with
    | Some binary => Return binary
    | None => Throw (mkError InvalidCharacterError (VString atob_error) VUndefined)
    end
  else Return (Buffer_from_base64 base64).

Definition urlBase64Decode (str : string) : Completion string :=
  let output := replace_all "_" "/" (replace_all "-" "+" str) in
  output ←
    match (String.length output mod 4)%nat with
    | 0%nat => Return output
    | 2%nat => Return (output +:+ "==")
    | 3%nat => Return (output +:+ "=")
    | _ => Throw (new_Error "Illegal base64url string!")
    end;
  binaryString ← base64Decode output;
  Return (default binaryString (TextDecoder_decode binaryString)).

Definition parse (text : string) : Completion Value :=
  match JSON_parse text with
  | inr v => Return v
  | inl msg => Throw (mkError SyntaxError (VString msg) VUndefined)
  end.

(** The body of the [try] block of [_processTokenResponse], up to the value
    assigned to [expires_at]. *)
Definition claims_expiry (tokenResponse : Value) : Completion number :=
  access_token ← read tokenResponse "access_token";
  segments ←
    match access_token with
    | VString s => Return (split_on "." s)
    | VUndefined | VNull =>
        Throw (new_TypeError (ReadOfNullish access_token "split"))
    | _ => Throw (new_TypeError (NotAFunction "split"))
    end;
  payload ←
    match segments !! 1%nat with
    | Some segment => Return segment
    | None => Throw (new_TypeError (ReadOfNullish VUndefined "replace"))
    end;
  text ← urlBase64Decode payload;
  claims ← parse text;
  exp ← read claims "exp";
  seconds ← ToNumber exp;
  Return (number_mul seconds (Num 1000)).

(** The decoding stages applied to the payload segment, up to the [exp]
    claim. *)
Definition decode_claims (payload : string) : Completion Value :=
  text ← urlBase64Decode payload;
  claims ← parse text;
  read claims "exp".

(** The host decodes canonical base64: [atob] does, and [Buffer] has to
    where it stands in for [atob]. *)
Definition decodes (bs : string) : Prop :=
  atob_defined = false -> Buffer_from_base64 (Base64.encode bs) = bs.

End Codec.

(** ** The process-wide state

    [User] instances live in a heap and are named by their address; the
    promises built by [_refreshToken] live in [tickets]. The module-level
    variables [refreshPromises] and [currentUser], the browser storage, the
    calls made to [api.request] and the [console.error] log complete the
    state. *)

Abbreviation loc := nat.
Abbreviation ticket := nat.

(** What [jwt] and [_refreshToken] return. [Inherited k] is the member [k]
    of [Object.prototype], which is what [refreshPromises[k]] evaluates to
    when [k] names one: [refreshPromises] is an object literal. *)
Inductive Promise :=
| Promise_resolve (v : Value)
| Promise_reject (e : JSError)
| Refresh (t : ticket)
| Inherited (k : string).

(** A call [api.request(path, options)]; [api] is an [API], the class of
    [api.ts], or an object with its interface. *)
Record Request := mkRequest {
  request_api : Value;
  request_path : string;
  request_options : Object
}.

(** The promise [Promise.race([...]).then(...).catch(...)] with what its
    handlers close over: [this], and the refresh token, kept as the
    property key its handlers turn it into. [outcome] is [None] while the
    promise is pending. *)
Record Ticket := mkTicket {
  owner : loc;
  registry_key : string;
  outcome : option (Completion Value)
}.

(** [isBrowser] is [typeof window !== 'undefined']; a window comes with
    its [localStorage]. *)
Record World := mkWorld {
  isBrowser : bool;
  localStorage : gmap string string;
  currentUser : option loc;
  refreshPromises : gmap string ticket;
  heap : list Object;
  tickets : list Ticket;
  requests : list Request;
  console : list JSError
}.

Definition with_localStorage (f : gmap string string -> gmap string string)
  (w : World) : World :=
  mkWorld (isBrowser w) (f (localStorage w)) (currentUser w)
    (refreshPromises w) (heap w) (tickets w) (requests w) (console w).

Definition with_currentUser (u : option loc) (w : World) : World :=
  mkWorld (isBrowser w) (localStorage w) u
    (refreshPromises w) (heap w) (tickets w) (requests w) (console w).

Definition with_refreshPromises (f : gmap string ticket -> gmap string ticket)
  (w : World) : World :=
  mkWorld (isBrowser w) (localStorage w) (currentUser w)
    (f (refreshPromises w)) (heap w) (tickets w) (requests w) (console w).

Definition with_heap (f : list Object -> list Object) (w : World) : World :=
  mkWorld (isBrowser w) (localStorage w) (currentUser w)
    (refreshPromises w) (f (heap w)) (tickets w) (requests w) (console w).

Definition with_tickets (f : list Ticket -> list Ticket) (w : World) : World :=
  mkWorld (isBrowser w) (localStorage w) (currentUser w)
    (refreshPromises w) (heap w) (f (tickets w)) (requests w) (console w).

Definition with_requests (f : list Request -> list Request) (w : World)
  : World :=
  mkWorld (isBrowser w) (localStorage w) (currentUser w)
    (refreshPromises w) (heap w) (tickets w) (f (requests w)) (console w).

(** [console.error(e)]. *)
Definition console_error (e : JSError) (w : World) : World :=
  mkWorld (isBrowser w) (localStorage w) (currentUser w)
    (refreshPromises w) (heap w) (tickets w) (requests w) (console w ++ [e]).

(** The object at [this] and its fields. *)
Definition object_at (w : World) (this : loc) : Object :=
  default [] (heap w !! this).

Definition field (w : World) (this : loc) (k : string) : Value :=
  get (VObject (object_at w this)) k.

(** [this[k] = v]. *)
Definition set_field (this : loc) (k : string) (v : Value) (w : World)
  : World :=
  with_heap (alter (assign k v) this) w.

(** [localStorage.getItem(k)], as far as its truthiness goes: the stored
    string when there is a non-empty one. *)
Definition getItem (w : World) (k : string) : option string :=
  match localStorage w !! k with
  | Some s => if String.eqb s EmptyString then None else Some s
  | None => None
  end.

(** [isBrowser() && localStorage.getItem(storageKey)]: the snapshot a
    browser holds at the fixed key. *)
Definition saved_session (w : World) : option string :=
  if isBrowser w then getItem w storageKey else None.

(** The request [_refreshToken] sends; [key] is the refresh token as the
    template literal prints it. *)
Definition refresh_request (api : Value) (key : string) : Request :=
  mkRequest api "/token"
    [("method", VString "POST");
     ("headers",
      VObject
        [("Content-Type", VString "application/x-www-form-urlencoded")]);
     ("body", VString ("grant_type=refresh_token&refresh_token=" +:+ key))].

(** ** [class User] *)

Section User.
Context `{Host}.

Definition removeSavedSession (w : World) : World :=
  if isBrowser w then with_localStorage (delete storageKey) w else w.

Definition clearSession (this : loc) (w : World) : World :=
  let w := removeSavedSession w in
  let w := set_field this "token" VNull w in
  with_currentUser None w.

Definition tokenDetails (w : World) (this : loc) : Value :=
  field w this "token".

(** The loop of [_saveUserData] over the keys of [attributes]. *)
Fixpoint copy_attributes (keys : list string) (attributes this : Object)
  : Object :=
  match keys with
  | [] => this
  | key :: keys' =>
      if in_User_prototype key || key_in forbiddenUpdateAttributes key
      then copy_attributes keys' attributes this
      else
        copy_attributes keys' attributes
          (assign key (get (VObject attributes) key) this)
  end.

Definition _saveUserData_object (attributes : Object) (fromStorage : bool)
  (this : Object) : Object :=
  let this := copy_attributes (own_keys attributes) attributes this in
  if fromStorage then assign "_fromStorage" (VBool true) this else this.

Definition _saveUserData (this : loc) (attributes : Object)
  (fromStorage : bool) (w : World) : World :=
  with_heap (alter (_saveUserData_object attributes fromStorage) this) w.

Definition _processTokenResponse (this : loc) (tokenResponse : Value)
  (w : World) : Completion unit * World :=
  let w := set_field this "token" tokenResponse w in
  match claims_expiry tokenResponse with
  | Return expires_at =>
      (Return tt,
       set_field this "token"
         (set (field w this "token") "expires_at" (VNumber expires_at)) w)
  | Throw error =>
      match Error_toString error with
      | Return text =>
          (Return tt,
           console_error
             (new_Error
                ("Gotrue-js: Failed to parse tokenResponse claims: "
                   +:+ text)) w)
      | Throw error' => (Throw error', w)
      end
  end.

(** The loop of the getter [_details]. *)
Fixpoint copy_details (keys : list string) (this userCopy : Object)
  : Object :=
  match keys with
  | [] => userCopy
  | key :: keys' =>
      if in_User_prototype key || key_in forbiddenSaveAttributes key
      then copy_details keys' this userCopy
      else
        copy_details keys' this
          (assign key (get (VObject this) key) userCopy)
  end.

Definition _details (w : World) (this : loc) : Object :=
  let o := object_at w this in copy_details (own_keys o) o [].

Definition _saveSession (this : loc) (w : World) : World :=
  if isBrowser w then
    with_localStorage
      (insert storageKey (JSON_stringify (VObject (_details w this)))) w
  else w.

Definition _refreshSavedSession (this : loc) (w : World) : World :=
  match saved_session w with
  | Some _ => _saveSession this w
  | None => w
  end.

(** [new User(api, tokenResponse, audience)]. *)
Definition new_User (api tokenResponse audience : Value) (w : World)
  : Completion loc * World :=
  let this := length (heap w) in
  let w := with_heap (fun h => h ++ [[("token", VNull)]]) w in
  let w := set_field this "api" api w in
  match read api "apiURL" with
  | Throw error => (Throw error, w)
  | Return url =>
      let w := set_field this "url" url w in
      let w := set_field this "audience" audience w in
      match _processTokenResponse this tokenResponse w with
      | (Throw error, w) => (Throw error, w)
      | (Return _, w) => (Return this, with_currentUser (Some this) w)
      end
  end.

Definition _refreshToken (this : loc) (refresh_token : Value) (w : World)
  : Completion Promise * World :=
  match ToString refresh_token with
  | Throw error => (Throw error, w)
  | Return key =>
      match refreshPromises w !! key with
      | Some t => (Return (Refresh t), w)
      | None =>
          if in_Object_prototype key then (Return (Inherited key), w)
          else
            let refreshRequest := refresh_request (field w this "api") key in
            let w := with_requests (fun l => l ++ [refreshRequest]) w in
            let t := length (tickets w) in
            let w := with_tickets (fun l => l ++ [mkTicket this key None]) w in
            (Return (Refresh t), with_refreshPromises (insert key t) w)
      end
  end.

(** [expires_at - ExpiryMargin < Date.now()]. *)
Definition expired (expires_at : Value) (now : Z) : Completion bool :=
  n ← ToNumber expires_at;
  Return (number_lt (number_sub n (Num ExpiryMargin)) (Num now)).

Definition jwt (this : loc) (forceRefresh : bool) (now : Z) (w : World)
  : Completion Promise * World :=
  let token := tokenDetails w this in
  if is_nullish token then
    (Return
       (Promise_reject
          (new_Error "Gotrue-js: failed getting jwt access token")), w)
  else
    let expires_at := get token "expires_at" in
    let refresh_token := get token "refresh_token" in
    let access_token := get token "access_token" in
    match (if forceRefresh then Return true else expired expires_at now) with
    | Throw error => (Throw error, w)
    | Return true => _refreshToken this refresh_token w
    | Return false => (Return (Promise_resolve access_token), w)
    end.

End User.

(** ** Settling a refresh *)

(** How the race between the refresh request and the 30-second timer ends. *)
Inductive Settlement :=
| Responded (response : Value)
| Failed (error : JSError)
| TimedOut.

Definition race (s : Settlement) : Completion Value :=
  match s with
  | Responded response => Return response
  | Failed error => Throw error
  | TimedOut => Throw (new_Error "Token refresh timeout")
  end.

Section Refresh.
Context `{Host}.

(** The [.then] handler of [_refreshToken]. *)
Definition refresh_fulfilled (this : loc) (key : string) (response : Value)
  (w : World) : Completion Value * World :=
  let w := with_refreshPromises (delete key) w in
  match _processTokenResponse this response w with
  | (Throw error, w) => (Throw error, w)
  | (Return _, w) =>
      let w := _refreshSavedSession this w in
      if truthy (field w this "token")
      then (Return (get (field w this "token") "access_token"), w)
      else (Throw (new_Error "Gotrue-js: Token not set after refresh"), w)
  end.

(** The [.catch] handler of [_refreshToken]. *)
Definition refresh_rejected (this : loc) (key : string) (error : JSError)
  (w : World) : Completion Value * World :=
  let w := with_refreshPromises (delete key) w in
  let w := clearSession this w in
  (Throw error, w).

Definition settle_ticket (t : ticket) (r : Completion Value) (w : World)
  : World :=
  with_tickets
    (alter (fun c => mkTicket (owner c) (registry_key c) (Some r)) t) w.

(** The race of ticket [t] ends with [s]: the handlers run and the promise
    settles. A promise that has settled stays as it is. *)
Definition settle (t : ticket) (s : Settlement) (w : World) : World :=
  match tickets w !! t with
  | Some (mkTicket this key None) =>
      let '(r, w) :=
        match race s with
        | Return response => refresh_fulfilled this key response w
        | Throw error => (Throw error, w)
        end in
      let '(r, w) :=
        match r with
        | Return v => (Return v, w)
        | Throw error => refresh_rejected this key error w
        end in
      settle_ticket t r w
  | _ => w
  end.

(** What a waiter on [p] gets: [None] while [p] is pending. ([Inherited]
    is no promise; a waiter gets the inherited member itself, which is not
    a value of this model.) *)
Definition await (p : Promise) (w : World) : option (Completion Value) :=
  match p with
  | Promise_resolve v => Some (Return v)
  | Promise_reject e => Some (Throw e)
  | Refresh t => tickets w !! t ≫= outcome
  | Inherited _ => None
  end.

(** ** Session recovery *)

(** [/^\/(?!\/)/.test(s)] *)
Definition is_relative_url (s : string) : bool :=
  match s with
  | String "/" (String "/" _) => false
  | String "/" _ => true
  | _ => false
  end.

(** [new API(apiURL, {})] of [api.ts]. *)
Definition new_API (apiURL : Value) : Completion Value :=
  let apiURL := if truthy apiURL then apiURL else VString EmptyString in
  s ← ToString apiURL;
  Return
    (VObject
       [("apiURL", apiURL);
        ("_sameOrigin", VBool (is_relative_url s));
        ("defaultHeaders", VObject [])]).

(** The keys a [for ... in] visits on a parsed snapshot. *)
Definition properties (v : Value) : Object :=
  match v with
  | VObject o => o
  | _ => []
  end.

(** [const { url, token, audience } = data]: destructuring [null] throws. *)
Definition destructure (data : Value) : Completion Value :=
  if is_nullish data then Throw (new_TypeError (DestructureOfNullish data))
  else Return data.

(** [apiInstance || new API(url, {})] *)
Definition recovery_api (apiInstance url : Value) : Completion Value :=
  if truthy apiInstance then Return apiInstance else new_API url.

(** The [try] block of [recoverSession]. *)
Definition recover_from (apiInstance : Value) (json : string) (w : World)
  : Completion (option loc) * World :=
  match parse json ≫= destructure with
  | Throw error => (Throw error, w)
  | Return data =>
      let url := get data "url" in
      let token := get data "token" in
      let audience := get data "audience" in
      if negb (truthy url) || negb (truthy token) then (Return None, w)
      else
        match recovery_api apiInstance url with
        | Throw error => (Throw error, w)
        | Return api =>
            match new_User api token audience w with
            | (Throw error, w) => (Throw error, w)
            | (Return user, w) =>
                (Return (Some user),
                 _saveUserData user (properties data) true w)
            end
        end
  end.

Definition recoverSession (apiInstance : Value) (w : World)
  : Completion (option loc) * World :=
  match currentUser w with
  | Some user => (Return (Some user), w)
  | None =>
      match saved_session w with
      | Some json =>
          match recover_from apiInstance json w with
          | (Throw error, w) =>
              match Error_toString error with
              | Return text =>
                  (Return None,
                   console_error
                     (new_Error
                        ("Gotrue-js: Error recovering session: " +:+ text))
                     w)
              | Throw error' => (Throw error', w)
              end
          | result => result
          end
      | None => (Return None, w)
      end
  end.

(** ** Authenticated requests *)

(** The [catch] block of [User._request] and of [GoTrue._request]: the
    error it throws. *)
Definition _request_catch (error : JSError) : JSError :=
  if instanceof_JSONHTTPError error && truthy (json error) then
    if truthy (get (json error) "msg") then
      mkError (cls error) (get (json error) "msg") (json error)
    else if truthy (get (json error) "error") then
      match
        (code ← ToString (get (json error) "error");
         description ← ToString (get (json error) "error_description");
         Return (code +:+ ": " +:+ description))
      with
      | Return text => mkError (cls error) (VString text) (json error)
      | Throw error' => error'
      end
    else error
  else error.

(** What the promise of [User._request] settles to, from what its two
    [await]s deliver: the token of [this.jwt()], printed into the
    [Authorization] header, and the response of [this.api.request(...)]. *)
Definition User_request_result (token response : Completion Value)
  : Completion Value :=
  try_catch
    (token ← token; _ ← ToString token; response)
    (fun error => Throw (_request_catch error)).

(** The same for [GoTrue._request], which awaits the request alone. *)
Definition GoTrue_request_result (response : Completion Value)
  : Completion Value :=
  try_catch response (fun error => Throw (_request_catch error)).

End Refresh.

(** ** Sequences of operations

    What a program does to the process-wide state between two page loads:
    any sequence of the synchronous steps of [user.ts], with the
    settlement of a refresh as a step of its own. *)

Inductive Operation :=
| Construct (api tokenResponse audience : Value)
| Jwt (this : loc) (forceRefresh : bool) (now : Z)
| Settle (t : ticket) (s : Settlement)
| SaveUserData (this : loc) (attributes : Object) (fromStorage : bool)
| RefreshSavedSession (this : loc)
| SaveSession (this : loc)
| ClearSession (this : loc)
| RemoveSavedSession
| RecoverSession (apiInstance : Value).

Section Operations.
Context `{Host}.

Definition run (op : Operation) (w : World) : World :=
  match op with
  | Construct api tokenResponse audience =>
      snd (new_User api tokenResponse audience w)
  | Jwt this forceRefresh now => snd (jwt this forceRefresh now w)
  | Settle t s => settle t s w
  | SaveUserData this attributes fromStorage =>
      _saveUserData this attributes fromStorage w
  | RefreshSavedSession this => _refreshSavedSession this w
  | SaveSession this => _saveSession this w
  | ClearSession this => clearSession this w
  | RemoveSavedSession => removeSavedSession w
  | RecoverSession apiInstance => snd (recoverSession apiInstance w)
  end.

Fixpoint run_all (ops : list Operation) (w : World) : World :=
  match ops with
  | [] => w
  | op :: ops' => run_all ops' (run op w)
  end.

End Operations.

(** The operation writes a snapshot of its own accord. *)
Definition is_SaveSession (op : Operation) : bool :=
  match op with
  | SaveSession _ => true
  | _ => false
  end.

(** The registry holds exactly the refreshes in flight, each under the key
    it was started for. *)
Definition registry_consistent (w : World) : Prop :=
  forall key t,
    refreshPromises w !! key = Some t
    <-> exists this, tickets w !! t = Some (mkTicket this key None).

(** ** [logout], [getUserData] and [update]

    Each awaits [this._request(...)] and goes on from what that delivers;
    the functions below are those continuations. *)

(** The own enumerable properties of a value, which a [for ... in] loop
    visits: those of an object, the elements of an array and the
    characters of a string under their indices. *)
Definition index_key (i : nat) : string :=
  NilZero.string_of_uint (Nat.to_uint i).

Definition enumerate (v : Value) : Object :=
  match v with
  | VObject o => o
  | VArray items => imap (fun i x => (index_key i, x)) items
  | VString s =>
      imap (fun i c => (index_key i, VString (String c EmptyString)))
        (list_ascii_of_string s)
  | _ => []
  end.

Section Continuations.
Context `{Host}.


(** [return this._saveUserData(response)._refreshSavedSession()], the
    end of [getUserData] and of [update]. *)
Definition getUserData_result (this : loc) (r : Completion Value) (w : World)
  : Completion loc * World :=
  match r with
  | Return response =>
      (Return this,
       _refreshSavedSession this
         (_saveUserData this (enumerate response) false w))
  | Throw error => (Throw error, w)
  end.

End Continuations.

(** ** Object literals *)

(** [{...target, ...source}]: each key of [source] is defined on the
    literal under the value [source] has for it. *)
Definition spread (source target : Object) : Object :=
  fold_left (fun o k => assign k (get (VObject source) k) o)
    (own_keys source) target.

(** [delete o[k]]. *)
Definition delete_prop (k : string) (o : Object) : Object :=
  List.filter (fun kv => negb (String.eqb (fst kv) k)) o.

(** ** [api.ts] *)

(** [interface RequestOptions]; a field that is absent is [undefined]
    ([None] for [headers]). *)
Module RequestOptions.

Record t := mk {
  method : Value;
  headers : option Object;
  body : Value;
  credentials : Value;
  audience : Value
}.

Definition empty : t := mk VUndefined None VUndefined VUndefined VUndefined.

Definition with_headers (h : Object) (o : t) : t :=
  mk (method o) (Some h) (body o) (credentials o) (audience o).

Definition with_credentials (c : Value) (o : t) : t :=
  mk (method o) (headers o) (body o) c (audience o).

End RequestOptions.

(** What the program reads of a [Response] of [fetch]: [contentType] is
    [response.headers.get('Content-Type')], [json] and [text] are what
    [await response.json()] and [await response.text()] deliver. *)
Module Response.

Record t := mk {
  ok : bool;
  status : Z;
  statusText : string;
  contentType : option string;
  json : Completion Value;
  text : Completion string
}.

End Response.

(** What a promise of [api.ts] rejects with: the exception, and the fields
    the error classes of [api.ts] add to it, [status] on every
    [HTTPError] and [data] on a [TextHTTPError] ([undefined] on other
    exceptions). *)
Record Failure := mkFailure {
  exception : JSError;
  status : Value;
  data : Value
}.

(** An exception that is no [HTTPError]. *)
Definition as_failure (e : JSError) : Failure :=
  mkFailure e VUndefined VUndefined.

Definition new_TextHTTPError (response : Response.t) (data : string)
  : Failure :=
  mkFailure
    (mkError TextHTTPError (VString (Response.statusText response))
       VUndefined)
    (VNumber (Num (Response.status response))) (VString data).

Definition new_JSONHTTPError (response : Response.t) (json : Value)
  : Failure :=
  mkFailure
    (mkError JSONHTTPError (VString (Response.statusText response)) json)
    (VNumber (Num (Response.status response))) VUndefined.

(** The completion a caller's [await] sees. *)
Definition completion (r : Failure + Value) : Completion Value :=
  match r with
  | inl failure => Throw (exception failure)
  | inr v => Return v
  end.

Module API.

Record t := mk {
  apiURL : Value;
  _sameOrigin : bool;
  defaultHeaders : Object
}.

(** A call of [fetch]. *)
Record Fetch := mkFetch {
  url : string;
  init : RequestOptions.t
}.

Section Methods.
Context `{Host}.

(** [new API(apiURL, options)]; [defaultHeaders] is
    [options?.defaultHeaders]. *)
Definition new (apiURL : Value) (defaultHeaders : option Object)
  : Completion t :=
  let apiURL := if truthy apiURL then apiURL else VString EmptyString in
  s ← ToString apiURL;
  Return (mk apiURL (is_relative_url s) (default [] defaultHeaders)).

(** The instance as a value. *)
Definition object (this : t) : Value :=
  VObject
    [("apiURL", apiURL this);
     ("_sameOrigin", VBool (_sameOrigin this));
     ("defaultHeaders", VObject (defaultHeaders this))].

Definition headers (this : t) (headers : Object) : Object :=
  spread headers
    (assign "Content-Type" (VString "application/json")
       (spread (defaultHeaders this) [])).

Definition parseJsonResponse (response : Response.t) : Failure + Value :=
  match Response.json response with
  | Throw error => inl (as_failure error)
  | Return json =>
      if negb (Response.ok response)
      then inl (new_JSONHTTPError response json)
      else inr json
  end.

(** [request], up to the call of [fetch]. *)
Definition request_fetch (this : t) (path : string)
  (options : RequestOptions.t) : Completion Fetch :=
  let headers :=
    headers this (default [] (RequestOptions.headers options)) in
  let headers :=
    if negb (truthy (RequestOptions.body options))
    then delete_prop "Content-Type" headers else headers in
  let fetchOptions := RequestOptions.with_headers headers options in
  let fetchOptions :=
    if _sameOrigin this then
      RequestOptions.with_credentials
        (if truthy (RequestOptions.credentials options)
         then RequestOptions.credentials options
         else VString "same-origin")
        fetchOptions
    else fetchOptions in
  base ← ToString (apiURL this);
  Return (mkFetch (base +:+ path) fetchOptions).

(** [request], from what [await fetch(...)] delivers. *)
Definition request_result (fetched : Completion Response.t)
  : Failure + Value :=
  match fetched with
  | Throw error => inl (as_failure error)
  | Return response =>
      if match Response.contentType response with
         | Some contentType => includes "json" contentType
         | None => false
         end
      then parseJsonResponse response
      else
        match Response.text response with
        | Throw error => inl (as_failure error)
        | Return data =>
            if negb (Response.ok response)
            then inl (new_TextHTTPError response data)
            else inr (VString data)
        end
  end.

End Methods.

End API.

(** ** The requests of [User] and of [GoTrue] *)

Section Requests.
Context `{Host}.

(** The first lines of [User._request] and of [GoTrue._request]: the
    options with [headers] in place and the audience header in it;
    [this_audience] is [this.audience]. *)
Definition audience_options (this_audience : Value)
  (options : RequestOptions.t) : RequestOptions.t :=
  let headers := default [] (RequestOptions.headers options) in
  let aud :=
    if truthy (RequestOptions.audience options)
    then RequestOptions.audience options else this_audience in
  RequestOptions.with_headers
    (if truthy aud then assign "X-JWT-AUD" aud headers else headers)
    options.

(** The options [User._request] calls [this.api.request] with:
    [{ headers: Object.assign(options.headers, { Authorization }),
    ...options }]. *)
Definition bearer_options (token : Value) (options : RequestOptions.t)
  : Completion RequestOptions.t :=
  bearer ← ToString token;
  Return
    (RequestOptions.with_headers
       (assign "Authorization" (VString ("Bearer " +:+ bearer))
          (default [] (RequestOptions.headers options)))
       options).

(** The call of [fetch] an authenticated request ends in, once the token
    is there. *)
Definition User_request_fetch (api : API.t) (this_audience token : Value)
  (path : string) (options : RequestOptions.t) : Completion API.Fetch :=
  options ← bearer_options token (audience_options this_audience options);
  API.request_fetch api path options.

(** The options of the request [_refreshToken] sends. *)
Definition refresh_options (key : string) : RequestOptions.t :=
  RequestOptions.mk (VString "POST")
    (Some [("Content-Type", VString "application/x-www-form-urlencoded")])
    (VString ("grant_type=refresh_token&refresh_token=" +:+ key))
    VUndefined VUndefined.

(** The options as an object: the fields that are present. *)
Definition options_object (o : RequestOptions.t) : Object :=
  (if RequestOptions.method o is VUndefined then []
   else [("method", RequestOptions.method o)])
  ++ match RequestOptions.headers o with
     | Some h => [("headers", VObject h)]
     | None => []
     end
  ++ (if RequestOptions.body o is VUndefined then []
      else [("body", RequestOptions.body o)])
  ++ (if RequestOptions.credentials o is VUndefined then []
      else [("credentials", RequestOptions.credentials o)])
  ++ (if RequestOptions.audience o is VUndefined then []
      else [("audience", RequestOptions.audience o)]).

End Requests.

(** ** [class GoTrue] of [index.ts]

    The [User]s of a client share its [api] object; the state keeps the
    object a [User] holds as [new User] got it. *)

(** [interface GoTrueInit]; a field that is absent is [undefined]. *)
Module GoTrueInit.

Record t := mk {
  APIUrl : Value;
  audience : Value;
  setCookie : Value;
  clientName : Value
}.

End GoTrueInit.

Module GoTrue.

Record t := mk {
  audience : Value;
  setCookie : Value;
  api : API.t
}.

Definition newline : string := String "010" EmptyString.

Definition HTTP_warning : string :=
  "Warning:" +:+ newline +:+ newline
    +:+ "DO NOT USE HTTP IN PRODUCTION FOR GOTRUE EVER!" +:+ newline
    +:+ "GoTrue REQUIRES HTTPS to work securely.".

Definition defaultApiURL : string := "/.netlify/identity".

(** A parameter with a default: the default stands in for [undefined]. *)
Definition or_default (v d : Value) : Value :=
  if v is VUndefined then d else v.

Section Methods.
Context `{Host}.

(** [new GoTrue(init)]: the client and what [console.warn] got. *)
Definition new (init : GoTrueInit.t) : Completion (t * list string) :=
  let APIUrl := or_default (GoTrueInit.APIUrl init) (VString defaultApiURL) in
  let audience := or_default (GoTrueInit.audience init) (VString EmptyString) in
  let setCookie := or_default (GoTrueInit.setCookie init) (VBool false) in
  let clientName :=
    or_default (GoTrueInit.clientName init) (VString "gotrue-js") in
  s ← ToString APIUrl;
  let warnings := if String.prefix "http://" s then [HTTP_warning] else [] in
  api ← API.new APIUrl (Some [("X-Nf-Client", clientName)]);
  Return
    (mk (if truthy audience then audience else VUndefined) setCookie api,
     warnings).

Definition _setRememberHeaders (this : t) (remember : Value) : t :=
  if truthy (setCookie this) then
    mk (audience this) (setCookie this)
      (API.mk (API.apiURL (api this)) (API._sameOrigin (api this))
         (assign "X-Use-Cookie"
            (VString (if truthy remember then "1" else "session"))
            (API.defaultHeaders (api this))))
  else this.

(** [_request], up to the call of [fetch]. *)
Definition _request_fetch (this : t) (path : string)
  (options : RequestOptions.t) : Completion API.Fetch :=
  API.request_fetch (api this) path (audience_options (audience this) options).

(** [_request], from what [await fetch(...)] delivers. *)
Definition _request_result (fetched : Completion Response.t)
  : Completion Value :=
  GoTrue_request_result (completion (API.request_result fetched)).

(** [createUser], up to the first [await] of [user.getUserData()], the
    one of [this.jwt()] in [User._request]: the new user with the promise
    of its token, and the client with its headers set. *)
Definition createUser (this : t) (tokenResponse remember : Value) (now : Z)
  (w : World) : Completion (loc * Completion Promise) * World * t :=
  let this := _setRememberHeaders this remember in
  match
    new_User (API.object (api this)) tokenResponse
      (if truthy (audience this) then audience this else VString EmptyString)
      w
  with
  | (Throw error, w) => (Throw error, w, this)
  | (Return user, w) =>
      let '(token, w) := jwt user false now w in
      (Return (user, token), w, this)
  end.

(** [createUser], from what [user._request('/user')] delivers. *)
Definition createUser_result (user : loc) (remember : Value)
  (r : Completion Value) (w : World) : Completion loc * World :=
  match getUserData_result user r w with
  | (Return userData, w) =>
      (Return userData,
       if truthy remember then _saveSession userData w else w)
  | (Throw error, w) => (Throw error, w)
  end.

(** The [then] handler of [login]. *)
Definition login_then (this : t) (response remember : Value) (now : Z)
  (w : World) : Completion (loc * Completion Promise) * World * t :=
  createUser this response remember now (removeSavedSession w).

Definition currentUser (this : t) (w : World)
  : Completion (option loc) * World * t :=
  match recoverSession (API.object (api this)) w with
  | (Return (Some user), w) =>
      (Return (Some user), w,
       _setRememberHeaders this (field w user "_fromStorage"))
  | (r, w) => (r, w, this)
  end.


End Methods.

End GoTrue.

(** ** A test host

    The platform of the repository's test suite: [atob] is present, the
    mocked [TextDecoder] maps every byte to the character of the same code,
    and [JSON.parse] is tabulated on the texts the scenarios use. *)

Definition quote : string := String "034" EmptyString.

(** [{"exp":1000}] *)
Definition exp_1000_text : string :=
  "{" +:+ quote +:+ "exp" +:+ quote +:+ ":1000}".

(** The payload of the token of the test suite:
    [{"sub":"1234567890","name":"John Doe","iat":1516239022,"exp":1000}] *)
Definition john_doe_text : string :=
  "{" +:+ quote +:+ "sub" +:+ quote +:+ ":" +:+ quote +:+ "1234567890"
    +:+ quote +:+ "," +:+ quote +:+ "name" +:+ quote +:+ ":" +:+ quote
    +:+ "John Doe" +:+ quote +:+ "," +:+ quote +:+ "iat" +:+ quote
    +:+ ":1516239022," +:+ quote +:+ "exp" +:+ quote +:+ ":1000}".

Definition john_doe_token : string :=
  "header.eyJzdWIiOiIxMjM0NTY3ODkwIiwibmFtZSI6IkpvaG4gRG9lIiwiaWF0IjoxNTE2MjM5MDIyLCJleHAiOjEwMDB9.secret".

(** A stored snapshot: the object with [url] [/.netlify/identity], [token]
    the object with [access_token] [header.e30.secret] and [refresh_token]
    [r1], and the empty string for [audience]. *)
Definition snapshot_text : string :=
  "{" +:+ quote +:+ "url" +:+ quote +:+ ":" +:+ quote
    +:+ "/.netlify/identity" +:+ quote +:+ "," +:+ quote +:+ "token"
    +:+ quote +:+ ":{" +:+ quote +:+ "access_token" +:+ quote +:+ ":"
    +:+ quote +:+ "header.e30.secret" +:+ quote +:+ "," +:+ quote
    +:+ "refresh_token" +:+ quote +:+ ":" +:+ quote +:+ "r1" +:+ quote
    +:+ "}," +:+ quote +:+ "audience" +:+ quote +:+ ":" +:+ quote +:+ quote
    +:+ "}".

Definition snapshot_value : Value :=
  VObject
    [("url", VString "/.netlify/identity");
     ("token",
      VObject
        [("access_token", VString "header.e30.secret");
         ("refresh_token", VString "r1")]);
     ("audience", VString EmptyString)].

Definition test_JSON_parse (text : string) : string + Value :=
  if String.eqb text "{}" then inr (VObject [])
  else if String.eqb text "null" then inr VNull
  else if String.eqb text exp_1000_text
  then inr (VObject [("exp", VNumber (Num 1000))])
  else if String.eqb text john_doe_text
  then
    inr
      (VObject
         [("sub", VString "1234567890"); ("name", VString "John Doe");
          ("iat", VNumber (Num 1516239022)); ("exp", VNumber (Num 1000))])
  else if String.eqb text snapshot_text then inr snapshot_value
  else inl "Unexpected token".

#[local] Instance TestHost : Host := {|
  atob_defined := true;
  atob_error := "Invalid character";
  Buffer_from_base64 := fun s => default EmptyString (Base64.atob s);
  TextDecoder_decode := Some;
  JSON_parse := test_JSON_parse;
  JSON_stringify := fun _ => snapshot_text;
  StringToNumber := fun _ => NaN;
  TypeError_message := fun _ => "Cannot read properties"
|}.

(** A browser with nothing stored and no user. *)
Definition empty_world : World :=
  mkWorld true ∅ None ∅ [] [] [] [].

(** A token response as the server sends it. *)
Definition token_response (access_token refresh_token : string) : Value :=
  VObject
    [("access_token", VString access_token);
     ("token_type", VString "bearer");
     ("expires_in", VNumber (Num 3600));
     ("refresh_token", VString refresh_token)].

(** A world holding one user whose token is [token], nothing else. *)
Definition world_of_token (token : Value) : World :=
  mkWorld true ∅ (Some 0) ∅ [[("token", token)]] [] [] [].

(** ** Statements about [jwt] *)

(** [jwt()] called once at each of the instants [nows]. *)
Fixpoint jwt_each `{Host} (this : loc) (nows : list Z) (w : World)
  : list (Completion Promise) * World :=
  match nows with
  | [] => ([], w)
  | now :: nows' =>
      let '(p, w) := jwt this false now w in
      let '(ps, w) := jwt_each this nows' w in
      (p :: ps, w)
  end.


(** The token at [this] is stale at [now]. *)
Definition stale `{Host} (w : World) (this : loc) (now : Z) : Prop :=
  expired (get (tokenDetails w this) "expires_at") now = Return true.

(** The freshness rule with the boundary on the side the specification
    puts it: fresh exactly when more than the margin remains, refreshed
    when [expires_at - now] is 60000 or less. *)
Definition freshness_as_specified : Prop :=
  forall (H : Host) (w : World) (this : loc) (e now : Z),
    is_nullish (tokenDetails w this) = false ->
    get (tokenDetails w this) "expires_at" = VNumber (Num e) ->
    ((e - now > 60000)%Z ->
     jwt this false now w
     = (Return (Promise_resolve (get (tokenDetails w this) "access_token")),
        w))
    /\ ((e - now <= 60000)%Z ->
        jwt this false now w
        = _refreshToken this (get (tokenDetails w this) "refresh_token") w).

(** ** What [_processTokenResponse] leaves behind *)

(** The token held afterwards: the response, with [expires_at] set when the
    [try] block ran to its end. *)
Definition with_expiry `{Host} (tokenResponse : Value) : Value :=
  match claims_expiry tokenResponse with
  | Return expires_at => set tokenResponse "expires_at" (VNumber expires_at)
  | Throw _ => tokenResponse
  end.

(** The text [console.error] gets for an exception whose message is a
    string, as those of the [try] blocks are. *)
Definition Error_text (e : JSError) : string :=
  match message e with
  | VString msg =>
      if String.eqb msg EmptyString then name e else name e +:+ ": " +:+ msg
  | _ => name e
  end.

(** What it logged. *)
Definition decode_log `{Host} (tokenResponse : Value) : list JSError :=
  match claims_expiry tokenResponse with
  | Return _ => []
  | Throw error =>
      [new_Error
         ("Gotrue-js: Failed to parse tokenResponse claims: "
            +:+ Error_text error)]
  end.

(** The message of the exception is a string. *)
Definition string_message (e : JSError) : Prop :=
  exists msg, message e = VString msg.

(** ** Statements about decoding failures *)



(** ** Statements about the refresh protocol *)

(** A stale token whose refresh token is the string [constructor]. *)
Definition constructor_token : Value :=
  VObject
    [("access_token", VString "header.e30.secret");
     ("expires_at", VNumber (Num 0));
     ("refresh_token", VString "constructor")].

(** ** Statements about the attribute merge *)

(** The merge as the specification has it: protected names and members of
    the class are left alone, every other key of the input ends up on the
    [User] with the input's value. *)
Definition merge_as_specified : Prop :=
  forall (w : World) (this : loc) (attributes : Object) (fromStorage : bool)
         (k : string),
    this < length (heap w) ->
    let w' := _saveUserData this attributes fromStorage w in
    (k ∈ forbiddenUpdateAttributes \/ in_User_prototype k = true ->
     field w' this k = field w this k)
    /\ (k ∈ own_keys attributes ->
        k ∉ forbiddenUpdateAttributes ->
        in_User_prototype k = false ->
        field w' this k = get (VObject attributes) k).

(** ** Statements about request errors *)

(** The error is a [JSONHTTPError] with a truthy body. *)
Definition json_shaped (error : JSError) : bool :=
  instanceof_JSONHTTPError error && truthy (json error).

(** The first failure inside the [try] block of [User._request]. *)
Definition first_failure `{Host} (token response : Completion Value)
  : option JSError :=
  match token with
  | Throw error => Some error
  | Return token =>
      match ToString token, response with
      | Throw error, _ => Some error
      | Return _, Throw error => Some error
      | Return _, Return _ => None
      end
  end.

(** The rewrite rule as the specification has it: the [msg] field wins
    whenever it is present, the composition applies whenever [error] is. *)
Definition message_rule_as_specified : Prop :=
  forall (H : Host) (error : JSError) (o : Object),
    cls error = JSONHTTPError ->
    json error = VObject o ->
    (forall m, lookup_prop "msg" o = Some m ->
               message (_request_catch error) = m)
    /\ (lookup_prop "msg" o = None ->
        forall code description,
          lookup_prop "error" o = Some (VString code) ->
          get (VObject o) "error_description" = VString description ->
          message (_request_catch error)
          = VString (code +:+ ": " +:+ description)).

(** The error body of the scenario of the specification. *)
Definition invalid_grant : Value :=
  VObject
    [("error", VString "invalid_grant");
     ("error_description", VString "Invalid credentials")].

(** ** Scenario worlds, on the test host *)

Definition test_api : Value :=
  VObject [("apiURL", VString "/.netlify/identity")].

(** A browser with one user, built from the token of the test suite: its
    [exp] is 1000 seconds after the epoch, so it is stale today. *)
Definition stale_world : World :=
  snd (new_User test_api (token_response john_doe_token "r1")
         (VString EmptyString) empty_world).

(** The same after [_saveSession]. *)
Definition saved_world : World := _saveSession 0 stale_world.

(** A day in November 2023, in milliseconds. *)
Definition today : Z := 1700000000000.

(** [jwt()] was called once and the refresh is in flight. *)
Definition pending_world : World := snd (jwt 0 false today stale_world).


(** Nobody is logged in and a snapshot is stored. *)
Definition recovery_world : World :=
  mkWorld true {[storageKey := snapshot_text]} None ∅ [] [] [] [].

(** One user whose token expires exactly [ExpiryMargin] after [today]. *)
Definition boundary_world : World :=
  world_of_token
    (VObject
       [("access_token", VString "header.e30.secret");
        ("expires_at", VNumber (Num (today + 60000)));
        ("refresh_token", VString "r1")]).

(** A browser with one user whose own properties are those of the stored
    snapshot, and its [api]. *)
Definition snapshot_world : World :=
  mkWorld true ∅ (Some 0) ∅
    [[("url", VString "/.netlify/identity");
      ("token",
       VObject
         [("access_token", VString "header.e30.secret");
          ("refresh_token", VString "r1")]);
      ("audience", VString EmptyString);
      ("api", test_api)]]
    [] [] [].

(** What a program may do with the user of [stale_world], from an empty
    page on. *)
Definition session_script : list Operation :=
  [Construct test_api (token_response john_doe_token "r1")
     (VString EmptyString);
   Jwt 0 false today;
   Jwt 0 false today;
   Settle 0 TimedOut;
   RecoverSession VUndefined].

(** The [API] of a client with the default URL and name. *)
Definition default_API : API.t :=
  API.mk (VString "/.netlify/identity") true
    [("X-Nf-Client", VString "gotrue-js")].

Definition default_client : GoTrue.t :=
  GoTrue.mk VUndefined (VBool true) default_API.

(** A user of that client, with the token of the test suite. *)
Definition client_world : World :=
  snd (new_User (API.object default_API)
         (token_response john_doe_token "r1") (VString EmptyString)
         empty_world).

(** [{ method: 'PUT', headers: { 'X-Trace': '1' }, body: '{}' }] *)
Definition put_options : RequestOptions.t :=
  RequestOptions.mk (VString "PUT") (Some [("X-Trace", VString "1")])
    (VString "{}") VUndefined VUndefined.

(** A response [400 Bad Request] with the error body of the scenario. *)
Definition bad_request : Response.t :=
  Response.mk false 400 "Bad Request" (Some "application/json")
    (Return invalid_grant) (Return EmptyString).

(** An init that names a plain-HTTP URL and nothing else. *)
Definition http_init : GoTrueInit.t :=
  GoTrueInit.mk (VString "http://localhost:9999") VUndefined VUndefined
    VUndefined.

(** * Proofs *)

(** ** Base64: decoding inverts encoding *)

Module Base64Facts.
Import Base64.

Local Open Scope N_scope.

Ltac Zify.zify_post_hook ::= Z.to_euclidean_division_equations.

(** Induction on a string three characters at a time. *)
Lemma string_triples (P : string -> Prop) :
  P EmptyString ->
  (forall x, P (String x EmptyString)) ->
  (forall x y, P (String x (String y EmptyString))) ->
  (forall x y z rest, P rest -> P (String x (String y (String z rest)))) ->
  forall s, P s.
Proof.
  intros H0 H1 H2 H3 s.
  cut (P s /\ (forall a, P (String a s)) /\
       (forall a b, P (String a (String b s)))); [tauto |].
  induction s as [| c s (IH0 & IH1 & IH2)]; repeat split; auto.
Qed.

Lemma below_64 (p : N -> bool) :
  forallb p (map N.of_nat (seq 0 64)) = true ->
  forall v, v < 64 -> p v = true.
Proof.
  intros Hall v Hv.
  rewrite forallb_forall in Hall. apply Hall.
  apply in_map_iff. exists (N.to_nat v).
  split; [apply N2Nat.id | apply in_seq; lia].
Qed.

Lemma code_bound c : code c < 256.
Proof. apply N_ascii_bounded. Qed.

Lemma byte_code c : byte (code c) = c.
Proof.
  unfold byte, code.
  rewrite N.mod_small by apply N_ascii_bounded.
  apply ascii_N_embedding.
Qed.

Lemma value_digit v : v < 64 -> value (digit alphabet v) = Some v.
Proof.
  intros Hv.
  pose (p := fun v =>
    match value (digit alphabet v) with
    | Some v' => v' =? v
    | None => false
    end).
  assert (Hp : p v = true) by (apply below_64; [vm_compute; reflexivity | exact Hv]).
  unfold p in Hp.
  destruct (value (digit alphabet v)) as [v' |]; [| discriminate].
  apply N.eqb_eq in Hp. now subst.
Qed.

Lemma sextets_bound bs : Forall (fun v => v < 64) (sextets bs).
Proof.
  induction bs as [| x | x y | x y z rest IH] using string_triples;
    cbn [sextets].
  - constructor.
  - pose proof (code_bound x). repeat constructor; lia.
  - pose proof (code_bound x). pose proof (code_bound y).
    repeat constructor; lia.
  - pose proof (code_bound x). pose proof (code_bound y).
    pose proof (code_bound z).
    repeat (constructor; [lia |]). exact IH.
Qed.

Lemma values_digits vs :
  Forall (fun v => v < 64) vs -> values (digits alphabet vs) = Some vs.
Proof.
  induction 1 as [| v vs Hv _ IH]; cbn [digits values]; [reflexivity |].
  now rewrite value_digit, IH.
Qed.

Lemma bytes_of_sextets bs : bytes_of (sextets bs) = bs.
Proof.
  induction bs as [| x | x y | x y z rest IH] using string_triples;
    cbn [sextets bytes_of].
  - reflexivity.
  - pose proof (code_bound x).
    replace ((code x / 4 * 64 + code x mod 4 * 16) / 16) with (code x) by lia.
    now rewrite byte_code.
  - pose proof (code_bound x). pose proof (code_bound y).
    set (n := code x * 256 + code y).
    replace ((n / 1024 * 4096 + (n / 16) mod 64 * 64 + n mod 16 * 4) / 4)
      with n by lia.
    assert (Hx : byte (n / 256) = x).
    { replace (n / 256) with (code x) by lia. apply byte_code. }
    assert (Hy : byte n = y).
    { unfold byte. replace (n mod 256) with (code y) by lia.
      rewrite <- (N.mod_small (code y) 256) by lia. apply byte_code. }
    now rewrite Hx, Hy.
  - pose proof (code_bound x). pose proof (code_bound y).
    pose proof (code_bound z).
    set (n := code x * 65536 + code y * 256 + code z).
    replace (n / 262144 * 262144 + (n / 4096) mod 64 * 4096
             + (n / 64) mod 64 * 64 + n mod 64) with n by lia.
    assert (Hx : byte (n / 65536) = x).
    { replace (n / 65536) with (code x) by lia. apply byte_code. }
    assert (Hy : byte (n / 256) = y).
    { unfold byte. replace ((n / 256) mod 256) with (code y) by lia.
      rewrite <- (N.mod_small (code y) 256) by lia. apply byte_code. }
    assert (Hz : byte n = z).
    { unfold byte. replace (n mod 256) with (code z) by lia.
      rewrite <- (N.mod_small (code z) 256) by lia. apply byte_code. }
    now rewrite Hx, Hy, Hz, IH.
Qed.

Lemma append_nil (s : string) : EmptyString +:+ s = s.
Proof. reflexivity. Qed.

Lemma append_cons (c : ascii) (s1 s2 : string) :
  String c s1 +:+ s2 = String c (s1 +:+ s2).
Proof. reflexivity. Qed.

Lemma length_append (s1 s2 : string) :
  String.length (s1 +:+ s2) = (String.length s1 + String.length s2)%nat.
Proof.
  induction s1 as [| c s1 IH]; rewrite ?append_nil, ?append_cons; cbn;
    [reflexivity | now f_equal].
Qed.

Lemma length_digits alpha vs : String.length (digits alpha vs) = length vs.
Proof. induction vs as [| v vs IH]; cbn; [reflexivity | now rewrite IH]. Qed.

Lemma digit_plain v :
  v < 64 ->
  is_whitespace (digit alphabet v) = false
  /\ Ascii.eqb (digit alphabet v) pad_char = false.
Proof.
  intros Hv.
  pose (p := fun v =>
    negb (is_whitespace (digit alphabet v))
    && negb (Ascii.eqb (digit alphabet v) pad_char)).
  assert (Hp : p v = true)
    by (apply below_64; [vm_compute; reflexivity | exact Hv]).
  unfold p in Hp. apply andb_true_iff in Hp as [H1 H2].
  now rewrite negb_true_iff in H1, H2.
Qed.

Lemma digits_plain vs :
  Forall (fun v => v < 64) vs -> plain (digits alphabet vs).
Proof.
  unfold plain.
  induction 1 as [| v vs Hv _ IH]; cbn; constructor; auto using digit_plain.
Qed.

Lemma remove_whitespace_plain body n pad :
  plain body -> padded_by n pad ->
  remove_whitespace (body +:+ pad) = body +:+ pad.
Proof.
  unfold plain. intros Hbody Hpad.
  induction body as [| c body IH]; rewrite ?append_nil, ?append_cons.
  - destruct Hpad; reflexivity.
  - inversion Hbody as [| ? ? [Hws _] Hrest]; subst.
    cbn [remove_whitespace]. rewrite Hws. f_equal. auto.
Qed.

Lemma drop_trailing_pad_plain body n pad :
  plain body -> padded_by n pad -> drop_trailing_pad (body +:+ pad) = body.
Proof.
  unfold plain. intros Hbody Hpad.
  induction body as [| c body IH].
  - destruct Hpad; reflexivity.
  - inversion Hbody as [| ? ? [_ Hc] Hrest]; subst.
    specialize (IH Hrest).
    destruct body as [| d body].
    + destruct Hpad; rewrite append_cons, append_nil; cbn; rewrite ?Hc;
        reflexivity.
    + inversion Hrest as [| ? ? [_ Hd] Hrest']; subst.
      destruct body as [| e body].
      * destruct Hpad; rewrite !append_cons, append_nil; cbn;
          rewrite ?Hc, ?Hd; reflexivity.
      * rewrite !append_cons in *.
        cbn [drop_trailing_pad]. cbn [drop_trailing_pad] in IH.
        now rewrite IH.
Qed.

(** How many digits a byte string has, modulo four, fixes its padding. *)
Lemma sextets_padding bs :
  exists k n,
    length (sextets bs) = (4 * k + (if Nat.eqb n 0 then 0 else 4 - n))%nat
    /\ padded_by n (padding bs).
Proof.
  induction bs as [| x | x y | x y z rest (k & n & Hlen & Hpad)]
    using string_triples; cbn [sextets padding length].
  - exists 0%nat, 0%nat. split; [reflexivity | constructor].
  - exists 0%nat, 2%nat. split; [reflexivity | constructor].
  - exists 0%nat, 1%nat. split; [reflexivity | constructor].
  - exists (S k), n. split; [rewrite Hlen; lia | exact Hpad].
Qed.

Theorem atob_encode bs : atob (encode bs) = Some bs.
Proof.
  unfold atob, encode.
  pose proof (sextets_bound bs) as Hb.
  pose proof (digits_plain _ Hb) as Hplain.
  destruct (sextets_padding bs) as (k & n & Hlen & Hpad).
  rewrite (remove_whitespace_plain _ _ _ Hplain Hpad).
  assert (Hl : N.of_nat (String.length (digits alphabet (sextets bs)
                                           +:+ padding bs)) mod 4 = 0).
  { rewrite length_append, length_digits, Hlen.
    destruct Hpad; cbn [Nat.eqb String.length]; lia. }
  rewrite Hl. cbn [N.eqb].
  rewrite (drop_trailing_pad_plain _ _ _ Hplain Hpad).
  assert (Hl' : (N.of_nat (String.length (digits alphabet (sextets bs)))
                 mod 4 =? 1) = false).
  { rewrite length_digits, Hlen. apply N.eqb_neq.
    destruct Hpad; cbn [Nat.eqb]; lia. }
  rewrite Hl'.
  rewrite (values_digits _ Hb). cbn. now rewrite bytes_of_sextets.
Qed.

End Base64Facts.

Ltac Zify.zify_post_hook ::= Z.to_euclidean_division_equations.

(** ** Strings *)

Section StringFacts.
Import Base64Facts.



Lemma has_char_append c s1 s2 :
  has_char c (s1 +:+ s2) = has_char c s1 || has_char c s2.
Proof.
  induction s1 as [| a s1 IH]; rewrite ?append_nil, ?append_cons;
    cbn [has_char]; [reflexivity |].
  now rewrite IH, orb_assoc.
Qed.




Lemma replace_all_append a b s1 s2 :
  replace_all a b (s1 +:+ s2) = replace_all a b s1 +:+ replace_all a b s2.
Proof.
  induction s1 as [| c s1 IH]; rewrite ?append_nil, ?append_cons;
    cbn [replace_all]; [reflexivity |].
  now rewrite IH, append_cons.
Qed.

End StringFacts.

(** ** The token codec *)

Section CodecFacts.
Context `{Host}.
Import Base64 Base64Facts.

Lemma bind_Return {A B} (a : A) (f : A -> Completion B) :
  (Return a ≫= f) = f a.
Proof. reflexivity. Qed.

Lemma bind_Throw {A B} (e : JSError) (f : A -> Completion B) :
  (Throw e ≫= f) = Throw e.
Proof. reflexivity. Qed.

Lemma translate_digits vs :
  Forall (fun v => v < 64)%N vs ->
  translate (digits url_alphabet vs) = digits alphabet vs.
Proof.
  unfold translate.
  induction 1 as [| v vs Hv _ IH]; cbn [digits replace_all];
    [reflexivity |].
  rewrite IH. f_equal.
  pose (p := fun v =>
    let c := digit url_alphabet v in
    let c := if Ascii.eqb c "-" then "+"%char else c in
    Ascii.eqb (if Ascii.eqb c "_" then "/"%char else c) (digit alphabet v)).
  assert (Hp : p v = true)
    by (apply below_64; [vm_compute; reflexivity | exact Hv]).
  now apply Ascii.eqb_eq in Hp.
Qed.

Lemma translate_append s1 s2 :
  translate (s1 +:+ s2) = translate s1 +:+ translate s2.
Proof. unfold translate. now rewrite !replace_all_append. Qed.

Lemma translate_padding n pad : padded_by n pad -> translate pad = pad.
Proof. destruct 1; reflexivity. Qed.



Lemma base64Decode_encode bs :
  decodes bs -> base64Decode (encode bs) = Return bs.
Proof.
  unfold base64Decode, decodes. intros Hhost.
  destruct atob_defined.
  - now rewrite atob_encode.
  - now rewrite Hhost.
Qed.

(** [urlBase64Decode] restores the padding that base64url leaves out. *)
Lemma urlBase64Decode_encode_url bs (padded : bool) :
  decodes bs ->
  urlBase64Decode
    (encode_url bs +:+ (if padded then padding bs else EmptyString))
  = Return (default bs (TextDecoder_decode bs)).
Proof.
  intros Hhost. unfold urlBase64Decode. fold (translate
    (encode_url bs +:+ (if padded then padding bs else EmptyString))).
  pose proof (sextets_bound bs) as Hb.
  destruct (sextets_padding bs) as (k & n & Hlen & Hpad).
  unfold encode_url.
  rewrite translate_append, (translate_digits _ Hb).
  assert (Hout :
    match (String.length (digits alphabet (sextets bs)
              +:+ translate (if padded then padding bs else EmptyString))
           mod 4)%nat with
    | 0%nat => Return (digits alphabet (sextets bs)
                 +:+ translate (if padded then padding bs else EmptyString))
    | 2%nat => Return ((digits alphabet (sextets bs)
                 +:+ translate (if padded then padding bs else EmptyString))
                 +:+ "==")
    | 3%nat => Return ((digits alphabet (sextets bs)
                 +:+ translate (if padded then padding bs else EmptyString))
                 +:+ "=")
    | _ => Throw (new_Error "Illegal base64url string!")
    end = Return (encode bs)).
  { unfold encode. revert Hpad. generalize (padding bs). intros pad Hpad.
    assert (Hnil : forall s, s +:+ EmptyString = s).
    { intros s. induction s as [| c s IH]; [reflexivity |].
      now rewrite append_cons, IH. }
    destruct padded.
    - rewrite (translate_padding _ _ Hpad).
      rewrite length_append, length_digits, Hlen.
      destruct Hpad; cbn [Nat.eqb String.length].
      + replace ((4 * k + 0 + 0) mod 4)%nat with 0%nat by lia. reflexivity.
      + replace ((4 * k + (4 - 1) + 1) mod 4)%nat with 0%nat by lia.
        reflexivity.
      + replace ((4 * k + (4 - 2) + 2) mod 4)%nat with 0%nat by lia.
        reflexivity.
    - change (translate EmptyString) with EmptyString.
      rewrite !Hnil, length_digits, Hlen.
      destruct Hpad; cbn [Nat.eqb].
      + replace ((4 * k + 0) mod 4)%nat with 0%nat by lia.
        now rewrite Hnil.
      + replace ((4 * k + (4 - 1)) mod 4)%nat with 3%nat by lia.
        reflexivity.
      + replace ((4 * k + (4 - 2)) mod 4)%nat with 2%nat by lia.
        reflexivity. }
  rewrite Hout, bind_Return, (base64Decode_encode _ Hhost), bind_Return.
  reflexivity.
Qed.


End CodecFacts.

(** ** Objects and the heap *)

Section ObjectFacts.

Lemma lookup_prop_assign_eq k v (o : Object) :
  lookup_prop k (assign k v o) = Some v.
Proof.
  induction o as [| [k' v'] o IH]; cbn.
  - now rewrite String.eqb_refl.
  - destruct (String.eqb k' k) eqn:E; cbn; now rewrite ?E, ?String.eqb_refl.
Qed.

Lemma lookup_prop_assign_ne k k' v (o : Object) :
  k <> k' -> lookup_prop k' (assign k v o) = lookup_prop k' o.
Proof.
  intros Hne.
  induction o as [| [k0 v0] o IH]; cbn.
  - now apply String.eqb_neq in Hne as ->.
  - destruct (String.eqb k0 k) eqn:E; cbn.
    + apply String.eqb_eq in E as ->.
      now apply String.eqb_neq in Hne as ->.
    + now rewrite IH.
Qed.

Lemma assign_assign k v v' (o : Object) :
  assign k v (assign k v' o) = assign k v o.
Proof.
  induction o as [| [k0 v0] o IH]; cbn.
  - now rewrite String.eqb_refl.
  - destruct (String.eqb k0 k) eqn:E; cbn; rewrite ?E, ?String.eqb_refl;
      [reflexivity | now rewrite IH].
Qed.

Lemma get_set_eq v k x : (exists o, v = VObject o) -> get (set v k x) k = x.
Proof. intros [o ->]. cbn. now rewrite lookup_prop_assign_eq. Qed.

Lemma get_set_ne v k k' x : k <> k' -> get (set v k x) k' = get v k'.
Proof.
  intros Hne. destruct v; try reflexivity.
  cbn. now rewrite lookup_prop_assign_ne.
Qed.

Lemma truthy_set v k x : truthy (set v k x) = truthy v.
Proof. now destruct v. Qed.

Lemma is_nullish_set v k x : is_nullish (set v k x) = is_nullish v.
Proof. now destruct v. Qed.

Lemma object_at_set_field this k v w :
  this < length (heap w) ->
  object_at (set_field this k v w) this = assign k v (object_at w this).
Proof.
  intros Hlt. unfold object_at, set_field, with_heap. cbn [heap].
  rewrite list_lookup_alter_eq.
  destruct (heap w !! this) as [o |] eqn:E; [reflexivity |].
  apply lookup_ge_None in E. lia.
Qed.

Lemma object_at_set_field_ne this that k v w :
  this <> that -> object_at (set_field this k v w) that = object_at w that.
Proof.
  intros Hne. unfold object_at, set_field, with_heap. cbn [heap].
  now rewrite list_lookup_alter_ne.
Qed.

Lemma field_set_field_eq this k v w :
  this < length (heap w) -> field (set_field this k v w) this k = v.
Proof.
  intros Hlt. unfold field.
  rewrite object_at_set_field by exact Hlt.
  cbn. now rewrite lookup_prop_assign_eq.
Qed.

Lemma field_set_field_ne this k k' v w :
  k <> k' -> field (set_field this k v w) this k' = field w this k'.
Proof.
  intros Hne. unfold field, object_at, set_field, with_heap. cbn [heap].
  rewrite list_lookup_alter_eq.
  destruct (heap w !! this) as [o |]; cbn; [| reflexivity].
  now rewrite lookup_prop_assign_ne.
Qed.

Lemma field_set_field_other this that k k' v w :
  this <> that -> field (set_field this k v w) that k' = field w that k'.
Proof. intros Hne. unfold field. now rewrite object_at_set_field_ne. Qed.

Lemma length_heap_set_field this k v w :
  length (heap (set_field this k v w)) = length (heap w).
Proof. unfold set_field, with_heap. cbn [heap]. apply length_alter. Qed.

End ObjectFacts.

(** ** Conversions and what they throw *)

Section ConversionFacts.
Context `{Host}.

Lemma bind_Throw_inv {A B} (c : Completion A) (f : A -> Completion B) e :
  (c ≫= f) = Throw e ->
  c = Throw e \/ exists a, c = Return a /\ f a = Throw e.
Proof. destruct c as [a | e']; cbn; [eauto | intros [= ->]; now left]. Qed.

Lemma string_message_TypeError f : string_message (new_TypeError f).
Proof. unfold string_message. cbn. eauto. Qed.

Lemma string_message_Error msg : string_message (new_Error msg).
Proof. unfold string_message. cbn. eauto. Qed.

(** The text of an exception with a string for a message. *)
Lemma Error_toString_text e :
  string_message e -> Error_toString e = Return (Error_text e).
Proof.
  intros [msg Hmsg]. unfold Error_toString, Error_text. now rewrite Hmsg.
Qed.

Lemma ToString_throws v e : ToString v = Throw e -> string_message e.
Proof.
  revert v e. fix IH 1.
  intros [| | [|] | n | s | o | items] e; cbn [ToString];
    try discriminate.
  - destruct (has_own "toString" o); [| discriminate].
    intros [= <-]. apply string_message_TypeError.
  - intros Hthrow. apply bind_Throw_inv in Hthrow as [Hthrow | Hthrow].
    + revert items e Hthrow. fix IHitems 1.
      intros [| x items] e; [discriminate |].
      intros Hthrow. apply bind_Throw_inv in Hthrow as [Hx | Hrest].
      * destruct (is_nullish x); [discriminate | exact (IH x e Hx)].
      * destruct Hrest as (part & _ & Hrest).
        apply bind_Throw_inv in Hrest as [Hrest | Hrest].
        -- exact (IHitems items e Hrest).
        -- destruct Hrest as (parts & _ & Hrest). discriminate Hrest.
    + destruct Hthrow as (parts & _ & Hthrow). discriminate Hthrow.
Qed.

Lemma ToNumber_throws v e : ToNumber v = Throw e -> string_message e.
Proof.
  destruct v as [| | b | n | s | o | items]; cbn [ToNumber];
    try discriminate.
  - destruct (has_own "toString" o); [| discriminate].
    intros [= <-]. apply string_message_TypeError.
  - intros Hthrow. apply bind_Throw_inv in Hthrow as [Hthrow | Hthrow].
    + exact (ToString_throws _ _ Hthrow).
    + destruct Hthrow as (s & _ & Hthrow). discriminate Hthrow.
Qed.

Lemma read_throws v k e : read v k = Throw e -> string_message e.
Proof.
  unfold read. destruct (is_nullish v); [| discriminate].
  intros [= <-]. apply string_message_TypeError.
Qed.

Lemma urlBase64Decode_throws str e :
  urlBase64Decode str = Throw e -> string_message e.
Proof.
  unfold urlBase64Decode. intros Hthrow.
  apply bind_Throw_inv in Hthrow as [Hthrow | (output & _ & Hthrow)].
  - destruct (String.length _ mod 4)%nat as [| [| [| [| n]]]];
      try discriminate; injection Hthrow as <-;
      apply string_message_Error.
  - apply bind_Throw_inv in Hthrow as [Hthrow | (binary & _ & Hthrow)];
      [| discriminate].
    unfold base64Decode in Hthrow.
    destruct atob_defined; [| discriminate].
    destruct (Base64.atob output); [discriminate |].
    injection Hthrow as <-. unfold string_message. cbn. eauto.
Qed.

Lemma parse_throws text e : parse text = Throw e -> string_message e.
Proof.
  unfold parse. destruct (JSON_parse text) as [msg | v]; [| discriminate].
  intros [= <-]. unfold string_message. cbn. eauto.
Qed.

(** Whatever the [try] block of [_processTokenResponse] throws has a
    string for a message, so logging it cannot throw in its turn. *)
Lemma claims_expiry_throws tokenResponse e :
  claims_expiry tokenResponse = Throw e -> string_message e.
Proof.
  unfold claims_expiry. intros Hthrow.
  apply bind_Throw_inv in Hthrow as [Hthrow | (access_token & _ & Hthrow)];
    [exact (read_throws _ _ _ Hthrow) |].
  apply bind_Throw_inv in Hthrow as [Hthrow | (segments & _ & Hthrow)].
  { destruct access_token; try discriminate; injection Hthrow as <-;
      apply string_message_TypeError. }
  apply bind_Throw_inv in Hthrow as [Hthrow | (payload & _ & Hthrow)].
  { destruct (segments !! 1%nat); [discriminate |].
    injection Hthrow as <-. apply string_message_TypeError. }
  apply bind_Throw_inv in Hthrow as [Hthrow | (text & _ & Hthrow)];
    [exact (urlBase64Decode_throws _ _ Hthrow) |].
  apply bind_Throw_inv in Hthrow as [Hthrow | (claims & _ & Hthrow)];
    [exact (parse_throws _ _ Hthrow) |].
  apply bind_Throw_inv in Hthrow as [Hthrow | (exp & _ & Hthrow)];
    [exact (read_throws _ _ _ Hthrow) |].
  apply bind_Throw_inv in Hthrow as [Hthrow | (seconds & _ & Hthrow)];
    [exact (ToNumber_throws _ _ Hthrow) | discriminate].
Qed.

End ConversionFacts.

(** ** [jwt] *)

Section JwtFacts.
Context `{Host}.


Lemma jwt_fresh this now w :
  is_nullish (tokenDetails w this) = false ->
  expired (get (tokenDetails w this) "expires_at") now = Return false ->
  jwt this false now w
  = (Return (Promise_resolve (get (tokenDetails w this) "access_token")), w).
Proof. intros Hheld Hfresh. unfold jwt. now rewrite Hheld, Hfresh. Qed.

Lemma jwt_stale this now w :
  is_nullish (tokenDetails w this) = false ->
  stale w this now ->
  jwt this false now w
  = _refreshToken this (get (tokenDetails w this) "refresh_token") w.
Proof.
  unfold stale. intros Hheld Hstale. unfold jwt. now rewrite Hheld, Hstale.
Qed.

Lemma jwt_forced this now w :
  is_nullish (tokenDetails w this) = false ->
  jwt this true now w
  = _refreshToken this (get (tokenDetails w this) "refresh_token") w.
Proof. intros Hheld. unfold jwt. now rewrite Hheld. Qed.

(** The refresh protocol never answers with an already-resolved promise. *)
Lemma _refreshToken_not_resolved this refresh_token w v :
  fst (_refreshToken this refresh_token w) <> Return (Promise_resolve v).
Proof.
  unfold _refreshToken.
  destruct (ToString refresh_token) as [key |]; [| discriminate].
  destruct (refreshPromises w !! key); [discriminate |].
  destruct (in_Object_prototype key); discriminate.
Qed.

(** C2 (amended): for a held token with a numeric [expires_at], [jwt()]
    without [forceRefresh] answers with the current access token, leaving
    the whole state (so the Transport log too) as it was, exactly when
    [expires_at - now >= 60000]; when [expires_at - now < 60000] it hands
    over to the refresh protocol. At [expires_at - now = 60000] the token
    still counts as fresh. *)
Theorem jwt_freshness (w : World) (this : loc) (e now : Z) :
  is_nullish (tokenDetails w this) = false ->
  get (tokenDetails w this) "expires_at" = VNumber (Num e) ->
  ((60000 <= e - now)%Z ->
   jwt this false now w
   = (Return (Promise_resolve (get (tokenDetails w this) "access_token")),
      w))
  /\ ((e - now < 60000)%Z ->
      jwt this false now w
      = _refreshToken this (get (tokenDetails w this) "refresh_token") w
      /\ forall v,
           fst (jwt this false now w) <> Return (Promise_resolve v)).
Proof.
  intros Hheld He. split; intros Hcmp.
  - apply jwt_fresh; [exact Hheld |].
    rewrite He. unfold expired. cbn. unfold ExpiryMargin.
    do 2 f_equal. apply Z.ltb_ge. lia.
  - assert (Hjwt : jwt this false now w
      = _refreshToken this (get (tokenDetails w this) "refresh_token") w).
    { apply jwt_stale; [exact Hheld |].
      unfold stale, expired. rewrite He. cbn. unfold ExpiryMargin.
      do 2 f_equal. apply Z.ltb_lt. lia. }
    split; [exact Hjwt |].
    intros v. rewrite Hjwt. apply _refreshToken_not_resolved.
Qed.



End JwtFacts.

(** ** Construction *)

Section ConstructionFacts.
Context `{Host}.

Lemma alter_last {A} (f : A -> A) (l : list A) (x : A) :
  alter f (length l) (l ++ [x]) = l ++ [f x].
Proof.
  replace (length l) with (length l + 0) by lia.
  now rewrite alter_app_r.
Qed.

(** [_processTokenResponse] does not throw. *)
Lemma _processTokenResponse_eq this tokenResponse w :
  this < length (heap w) ->
  _processTokenResponse this tokenResponse w
  = (Return tt,
     mkWorld (isBrowser w) (localStorage w) (currentUser w)
       (refreshPromises w)
       (alter (assign "token" (with_expiry tokenResponse)) this (heap w))
       (tickets w) (requests w) (console w ++ decode_log tokenResponse)).
Proof.
  intros Hlt. unfold _processTokenResponse, with_expiry, decode_log.
  destruct (claims_expiry tokenResponse) as [expires_at | error] eqn:E.
  - rewrite field_set_field_eq by exact Hlt.
    unfold set_field, with_heap. cbn.
    rewrite app_nil_r. do 2 f_equal.
    rewrite list_alter_alter_eq. apply list_alter_ext; [| reflexivity].
    intros o _. apply assign_assign.
  - now rewrite (Error_toString_text _ (claims_expiry_throws _ _ E)).
Qed.

Lemma new_User_eq api tokenResponse audience w :
  is_nullish api = false ->
  new_User api tokenResponse audience w
  = (Return (length (heap w)),
     mkWorld (isBrowser w) (localStorage w) (Some (length (heap w)))
       (refreshPromises w)
       (heap w
          ++ [[("token", with_expiry tokenResponse); ("api", api);
               ("url", get api "apiURL"); ("audience", audience)]])
       (tickets w) (requests w) (console w ++ decode_log tokenResponse)).
Proof.
  intros Hapi. unfold new_User, read. rewrite Hapi.
  rewrite _processTokenResponse_eq.
  - unfold set_field, with_heap, with_currentUser. cbn.
    rewrite !alter_last. reflexivity.
  - rewrite !length_heap_set_field. unfold with_heap. cbn.
    rewrite length_app. cbn. lia.
Qed.

(** Without an [api] the constructor throws before it reads the token. *)
Lemma new_User_throws api tokenResponse audience w :
  is_nullish api = true ->
  fst (new_User api tokenResponse audience w)
  = Throw (new_TypeError (ReadOfNullish api "apiURL")).
Proof. intros Hapi. unfold new_User, read. now rewrite Hapi. Qed.


End ConstructionFacts.

(** ** Decoding the expiry at construction *)

Section ExpiryFacts.
Context `{Host}.
Import Base64 Base64Facts.

Lemma append_assoc (s1 s2 s3 : string) :
  (s1 +:+ s2) +:+ s3 = s1 +:+ (s2 +:+ s3).
Proof.
  induction s1 as [| c s1 IH]; rewrite ?append_nil, ?append_cons;
    [reflexivity | now rewrite IH].
Qed.

(** A response the [try] block gets through is an object. *)
Lemma claims_expiry_object tokenResponse e :
  claims_expiry tokenResponse = Return e -> exists o, tokenResponse = VObject o.
Proof.
  unfold claims_expiry, read.
  destruct tokenResponse; cbn; try discriminate. eauto.
Qed.

(** With a payload segment in place, [claims_expiry] is the decoding of
    that segment. *)
Lemma claims_expiry_payload (o : Object) access_token payload :
  get (VObject o) "access_token" = VString access_token ->
  split_on "." access_token !! 1%nat = Some payload ->
  claims_expiry (VObject o)
  = (exp ← decode_claims payload;
     seconds ← ToNumber exp;
     Return (number_mul seconds (Num 1000))).
Proof.
  intros Htoken Hseg. unfold claims_expiry, decode_claims, read.
  cbn [is_nullish]. rewrite bind_Return, Htoken, bind_Return, Hseg.
  rewrite bind_Return.
  destruct (urlBase64Decode payload) as [text |]; [| reflexivity].
  rewrite !bind_Return.
  destruct (parse text) as [claims |]; [| reflexivity].
  rewrite !bind_Return.
  destruct (is_nullish claims); reflexivity.
Qed.






Lemma decode_claims_not_json payload text msg :
  urlBase64Decode payload = Return text ->
  JSON_parse text = inl msg ->
  decode_claims payload = Throw (mkError SyntaxError (VString msg) VUndefined).
Proof.
  intros Htext Hparse. unfold decode_claims, parse.
  now rewrite Htext, bind_Return, Hparse.
Qed.

Lemma decode_claims_null payload text :
  urlBase64Decode payload = Return text ->
  JSON_parse text = inr VNull ->
  decode_claims payload = Throw (new_TypeError (ReadOfNullish VNull "exp")).
Proof.
  intros Htext Hparse. unfold decode_claims, parse.
  now rewrite Htext, bind_Return, Hparse.
Qed.

(** Claims without [exp] are no failure: the product is [NaN]. *)
Lemma claims_expiry_missing_exp (o : Object) access_token payload :
  get (VObject o) "access_token" = VString access_token ->
  split_on "." access_token !! 1%nat = Some payload ->
  decode_claims payload = Return VUndefined ->
  claims_expiry (VObject o) = Return NaN.
Proof.
  intros Htoken Hseg Hdecode.
  now rewrite (claims_expiry_payload _ _ _ Htoken Hseg), Hdecode.
Qed.



End ExpiryFacts.

(** ** The refresh protocol *)

Section RefreshFacts.
Context `{Host}.

(** A ticket in flight is joined: no request, no change of state. *)
Lemma _refreshToken_joins this refresh_token key w t :
  ToString refresh_token = Return key ->
  refreshPromises w !! key = Some t ->
  _refreshToken this refresh_token w = (Return (Refresh t), w).
Proof.
  intros Hkey Hheld. unfold _refreshToken. now rewrite Hkey, Hheld.
Qed.

(** Without a ticket, one request is sent and the new ticket is registered
    before [_refreshToken] returns. *)
Lemma _refreshToken_starts this refresh_token key w :
  ToString refresh_token = Return key ->
  refreshPromises w !! key = None ->
  in_Object_prototype key = false ->
  _refreshToken this refresh_token w
  = (Return (Refresh (length (tickets w))),
     mkWorld (isBrowser w) (localStorage w) (currentUser w)
       (<[key := length (tickets w)]> (refreshPromises w))
       (heap w)
       (tickets w ++ [mkTicket this key None])
       (requests w ++ [refresh_request (field w this "api") key])
       (console w)).
Proof.
  intros Hkey Hnone Hown. unfold _refreshToken.
  now rewrite Hkey, Hnone, Hown.
Qed.

(** A refresh token named like a member of [Object.prototype] finds that
    member in [refreshPromises]: nothing is sent, nothing is registered. *)
Lemma _refreshToken_inherited this refresh_token key w :
  ToString refresh_token = Return key ->
  refreshPromises w !! key = None ->
  in_Object_prototype key = true ->
  _refreshToken this refresh_token w = (Return (Inherited key), w).
Proof.
  intros Hkey Hnone Hproto. unfold _refreshToken.
  now rewrite Hkey, Hnone, Hproto.
Qed.

(** A refresh token that cannot be printed makes [_refreshToken] throw
    where it builds the request body; nothing is sent. *)
Lemma _refreshToken_throws this refresh_token w error :
  ToString refresh_token = Throw error ->
  _refreshToken this refresh_token w = (Throw error, w).
Proof. intros Hkey. unfold _refreshToken. now rewrite Hkey. Qed.

Lemma jwt_each_joins this nows key w t :
  is_nullish (tokenDetails w this) = false ->
  (forall now, now ∈ nows -> stale w this now) ->
  ToString (get (tokenDetails w this) "refresh_token") = Return key ->
  refreshPromises w !! key = Some t ->
  jwt_each this nows w = (map (fun _ => Return (Refresh t)) nows, w).
Proof.
  intros Hheld Hstale Hkey Hticket.
  induction nows as [| now nows IH]; cbn [jwt_each map]; [reflexivity |].
  rewrite jwt_stale, (_refreshToken_joins _ _ _ _ _ Hkey Hticket);
    [| exact Hheld | apply Hstale; left].
  rewrite IH; [reflexivity |].
  intros now' Hin. apply Hstale. now right.
Qed.

(** Single flight: any number of calls of [jwt()] on a stale token, made
    before the refresh settles, send one request and get one ticket. *)
Theorem single_flight this now nows key w :
  is_nullish (tokenDetails w this) = false ->
  (forall now', now' ∈ now :: nows -> stale w this now') ->
  ToString (get (tokenDetails w this) "refresh_token") = Return key ->
  refreshPromises w !! key = None ->
  in_Object_prototype key = false ->
  exists w',
    jwt_each this (now :: nows) w
    = (map (fun _ => Return (Refresh (length (tickets w)))) (now :: nows),
       w')
    /\ requests w' = requests w ++ [refresh_request (field w this "api") key]
    /\ tickets w' = tickets w ++ [mkTicket this key None]
    /\ heap w' = heap w.
Proof.
  intros Hheld Hstale Hkey Hnone Hown.
  cbn [jwt_each map].
  rewrite jwt_stale, (_refreshToken_starts _ _ _ _ Hkey Hnone Hown);
    [| exact Hheld | apply Hstale; left].
  set (w1 := mkWorld _ _ _ _ _ _ _ _).
  assert (Htok : tokenDetails w1 this = tokenDetails w this) by reflexivity.
  rewrite (jwt_each_joins this nows key w1 (length (tickets w))).
  - exists w1. repeat split; reflexivity.
  - now rewrite Htok.
  - intros now' Hin. unfold stale. rewrite Htok. apply Hstale. now right.
  - now rewrite Htok.
  - subst w1. cbn [refreshPromises]. apply lookup_insert_eq.
Qed.

Lemma World_eta w :
  w = mkWorld (isBrowser w) (localStorage w) (currentUser w)
        (refreshPromises w) (heap w) (tickets w) (requests w) (console w).
Proof. now destruct w. Qed.

Lemma saved_session_browser w json :
  saved_session w = Some json -> isBrowser w = true.
Proof. unfold saved_session. now destruct (isBrowser w). Qed.

(** [_refreshSavedSession] writes the storage, and only where a snapshot
    is already saved. *)
Lemma _refreshSavedSession_eq this w :
  _refreshSavedSession this w
  = mkWorld (isBrowser w)
      (match saved_session w with
       | Some _ =>
           <[storageKey := JSON_stringify (VObject (_details w this))]>
             (localStorage w)
       | None => localStorage w
       end)
      (currentUser w) (refreshPromises w) (heap w) (tickets w) (requests w)
      (console w).
Proof.
  unfold _refreshSavedSession, _saveSession.
  destruct (saved_session w) as [json |] eqn:E; [| apply World_eta].
  unfold with_localStorage.
  now rewrite (saved_session_browser _ _ E).
Qed.

Lemma clearSession_eq this w :
  clearSession this w
  = mkWorld (isBrowser w)
      (if isBrowser w then delete storageKey (localStorage w)
       else localStorage w)
      None (refreshPromises w)
      (alter (assign "token" VNull) this (heap w))
      (tickets w) (requests w) (console w).
Proof.
  unfold clearSession, removeSavedSession.
  destruct w as [[] ? ? ? ? ? ? ?]; reflexivity.
Qed.

Lemma saved_session_clearSession this w :
  saved_session (clearSession this w) = None.
Proof.
  rewrite clearSession_eq. unfold saved_session, getItem. cbn.
  destruct (isBrowser w); [| reflexivity].
  now rewrite lookup_delete_eq.
Qed.

(** How a lost race settles the ticket. *)
Lemma settle_failure t s w this key error :
  tickets w !! t = Some (mkTicket this key None) ->
  race s = Throw error ->
  settle t s w
  = settle_ticket t (Throw error)
      (clearSession this (with_refreshPromises (delete key) w)).
Proof.
  intros Hticket Hrace. unfold settle. now rewrite Hticket, Hrace.
Qed.

(** How a response settles the ticket. *)
Lemma settle_success t w this key response :
  tickets w !! t = Some (mkTicket this key None) ->
  this < length (heap w) ->
  truthy response = true ->
  settle t (Responded response) w
  = settle_ticket t (Return (get response "access_token"))
      (_refreshSavedSession this
         (snd
            (_processTokenResponse this response
               (with_refreshPromises (delete key) w)))).
Proof.
  intros Hticket Hlt Htruthy. unfold settle. rewrite Hticket.
  cbn [race]. unfold refresh_fulfilled.
  rewrite _processTokenResponse_eq by exact Hlt. cbn [snd].
  set (w3 := _refreshSavedSession this _).
  assert (Htok : field w3 this "token" = with_expiry response).
  { subst w3. rewrite _refreshSavedSession_eq.
    unfold field, object_at. cbn [heap with_refreshPromises].
    rewrite list_lookup_alter_eq.
    destruct (heap w !! this) as [o |] eqn:E.
    - cbn. now rewrite lookup_prop_assign_eq.
    - apply lookup_ge_None in E. lia. }
  rewrite Htok.
  assert (Hwith : truthy (with_expiry response) = true
                  /\ get (with_expiry response) "access_token"
                     = get response "access_token").
  { unfold with_expiry. destruct (claims_expiry response); [| auto].
    rewrite truthy_set. split; [exact Htruthy | now apply get_set_ne]. }
  destruct Hwith as [-> ->]. reflexivity.
Qed.

Lemma await_settle_ticket t r w this key :
  tickets w !! t = Some (mkTicket this key None) ->
  await (Refresh t) (settle_ticket t r w) = Some r.
Proof.
  intros Hticket. unfold await, settle_ticket, with_tickets.
  cbn [tickets]. rewrite list_lookup_alter_eq, Hticket. reflexivity.
Qed.

(** Every waiter on a ticket settled by a response gets the access token
    of that response. *)
Lemma await_settle_success t w this key response :
  tickets w !! t = Some (mkTicket this key None) ->
  this < length (heap w) ->
  truthy response = true ->
  await (Refresh t) (settle t (Responded response) w)
  = Some (Return (get response "access_token")).
Proof.
  intros Hticket Hlt Htruthy.
  rewrite (settle_success _ _ _ _ _ Hticket Hlt Htruthy).
  apply (await_settle_ticket _ _ _ this key).
  rewrite _refreshSavedSession_eq. cbn [tickets].
  now rewrite _processTokenResponse_eq.
Qed.

(** C3: when the refresh request fails or the 30-second timer wins the
    race, the ticket leaves the registry, the session is cleared (the
    [User] holds [null] as its token, nothing is saved at the storage key
    any more, [currentUser] is [null]) and every waiter on the ticket
    gets the error the race ended with. *)
Theorem failed_refresh_clears_session (t : ticket) (s : Settlement)
  (w : World) (this : loc) (key : string) (error : JSError) :
  tickets w !! t = Some (mkTicket this key None) ->
  this < length (heap w) ->
  race s = Throw error ->
  let w' := settle t s w in
  refreshPromises w' !! key = None
  /\ tokenDetails w' this = VNull
  /\ saved_session w' = None
  /\ (isBrowser w' = true -> localStorage w' !! storageKey = None)
  /\ currentUser w' = None
  /\ await (Refresh t) w' = Some (Throw error).
Proof.
  intros Hticket Hlt Hrace. cbv zeta.
  rewrite (settle_failure _ _ _ _ _ _ Hticket Hrace).
  repeat apply conj.
  - rewrite clearSession_eq. cbn. apply lookup_delete_eq.
  - rewrite clearSession_eq.
    unfold tokenDetails, field, object_at. cbn.
    rewrite list_lookup_alter_eq.
    destruct (heap w !! this) as [o |] eqn:E.
    + cbn. now rewrite lookup_prop_assign_eq.
    + apply lookup_ge_None in E. lia.
  - apply (saved_session_clearSession this
             (with_refreshPromises (delete key) w)).
  - rewrite clearSession_eq. cbn. intros ->. apply lookup_delete_eq.
  - rewrite clearSession_eq. reflexivity.
  - apply (await_settle_ticket _ _ _ this key).
    rewrite clearSession_eq. exact Hticket.
Qed.


(** What the loop of [_details] leaves under a key it does not skip. *)
Lemma copy_details_lookup keys (this userCopy : Object) k :
  in_User_prototype k || key_in forbiddenSaveAttributes k = false ->
  lookup_prop k (copy_details keys this userCopy)
  = if bool_decide (k ∈ keys) then Some (get (VObject this) k)
    else lookup_prop k userCopy.
Proof.
  intros Hkeep. revert userCopy.
  induction keys as [| key keys IH]; intros userCopy; cbn [copy_details].
  - reflexivity.
  - destruct (decide (k = key)) as [-> | Hne].
    + rewrite Hkeep, IH.
      rewrite (bool_decide_eq_true_2 (key ∈ key :: keys)) by left.
      destruct (bool_decide (key ∈ keys)); [reflexivity |].
      apply lookup_prop_assign_eq.
    + assert (Hin : bool_decide (k ∈ key :: keys) = bool_decide (k ∈ keys)).
      { apply bool_decide_ext. rewrite elem_of_cons.
        split; [intros [Heq | Hin]; [contradiction | exact Hin] | now right]. }
      rewrite Hin.
      destruct (in_User_prototype key || key_in forbiddenSaveAttributes key);
        rewrite IH.
      * reflexivity.
      * destruct (bool_decide (k ∈ keys)); [reflexivity |].
        apply lookup_prop_assign_ne. congruence.
Qed.


End RefreshFacts.
(** ** Merging server attributes *)

Section MergeFacts.

(** What the loop of [_saveUserData] leaves under each key. *)
Lemma copy_attributes_lookup keys (attributes this : Object) k :
  lookup_prop k (copy_attributes keys attributes this)
  = if bool_decide (k ∈ keys)
       && negb (in_User_prototype k || key_in forbiddenUpdateAttributes k)
    then Some (get (VObject attributes) k)
    else lookup_prop k this.
Proof.
  revert this.
  induction keys as [| key keys IH]; intros this; cbn [copy_attributes].
  - reflexivity.
  - destruct (decide (k = key)) as [-> | Hne].
    + rewrite (bool_decide_eq_true_2 (key ∈ key :: keys)) by left.
      destruct (in_User_prototype key
                || key_in forbiddenUpdateAttributes key);
        rewrite IH; cbn [negb andb].
      * now rewrite andb_false_r.
      * rewrite andb_true_r.
        destruct (bool_decide (key ∈ keys)); [reflexivity |].
        apply lookup_prop_assign_eq.
    + assert (Hin : bool_decide (k ∈ key :: keys) = bool_decide (k ∈ keys)).
      { apply bool_decide_ext. rewrite elem_of_cons.
        split; [intros [Heq | Hin]; [contradiction | exact Hin] | now right]. }
      rewrite Hin.
      destruct (in_User_prototype key
                || key_in forbiddenUpdateAttributes key); rewrite IH.
      * reflexivity.
      * destruct (bool_decide (k ∈ keys)
                  && negb (in_User_prototype k
                           || key_in forbiddenUpdateAttributes k));
          [reflexivity |].
        apply lookup_prop_assign_ne. congruence.
Qed.

Lemma forbidden_key_in k :
  k ∈ forbiddenUpdateAttributes -> key_in forbiddenUpdateAttributes k = true.
Proof.
  intros Hin. unfold key_in. now rewrite bool_decide_eq_true_2.
Qed.

Lemma _saveUserData_object_protected attributes fromStorage this k :
  in_User_prototype k || key_in forbiddenUpdateAttributes k = true ->
  lookup_prop k (_saveUserData_object attributes fromStorage this)
  = lookup_prop k this.
Proof.
  intros Hskip. unfold _saveUserData_object.
  assert (Hcopy :
    lookup_prop k (copy_attributes (own_keys attributes) attributes this)
    = lookup_prop k this).
  { rewrite copy_attributes_lookup, Hskip. now rewrite andb_false_r. }
  destruct fromStorage; [| exact Hcopy].
  rewrite lookup_prop_assign_ne; [exact Hcopy |].
  intros <-. discriminate Hskip.
Qed.

Lemma _saveUserData_object_copied attributes fromStorage this k :
  k ∈ own_keys attributes ->
  in_User_prototype k || key_in forbiddenUpdateAttributes k = false ->
  (fromStorage = true -> k <> "_fromStorage") ->
  lookup_prop k (_saveUserData_object attributes fromStorage this)
  = Some (get (VObject attributes) k).
Proof.
  intros Hin Hkeep Hmarker. unfold _saveUserData_object.
  assert (Hcopy :
    lookup_prop k (copy_attributes (own_keys attributes) attributes this)
    = Some (get (VObject attributes) k)).
  { rewrite copy_attributes_lookup, Hkeep.
    now rewrite bool_decide_eq_true_2. }
  destruct fromStorage; [| exact Hcopy].
  rewrite lookup_prop_assign_ne; [exact Hcopy |].
  intros <-. now apply Hmarker.
Qed.

Lemma object_at__saveUserData this attributes fromStorage w :
  this < length (heap w) ->
  object_at (_saveUserData this attributes fromStorage w) this
  = _saveUserData_object attributes fromStorage (object_at w this).
Proof.
  intros Hlt. unfold object_at, _saveUserData, with_heap. cbn [heap].
  rewrite list_lookup_alter_eq.
  destruct (heap w !! this) as [o |] eqn:E; [reflexivity |].
  apply lookup_ge_None in E. lia.
Qed.

Lemma field__saveUserData_protected this attributes fromStorage w k :
  in_User_prototype k || key_in forbiddenUpdateAttributes k = true ->
  field (_saveUserData this attributes fromStorage w) this k
  = field w this k.
Proof.
  intros Hskip.
  unfold field, object_at, _saveUserData, with_heap. cbn [heap].
  rewrite list_lookup_alter_eq.
  destruct (heap w !! this) as [o |]; [| reflexivity].
  cbn [fmap option_fmap option_map default from_option id get].
  now rewrite _saveUserData_object_protected.
Qed.

Lemma field__saveUserData_marker this attributes w :
  this < length (heap w) ->
  field (_saveUserData this attributes true w) this "_fromStorage"
  = VBool true.
Proof.
  intros Hlt. unfold field. rewrite object_at__saveUserData by exact Hlt.
  unfold _saveUserData_object. cbn [get].
  now rewrite lookup_prop_assign_eq.
Qed.

(** C5 (amended): whatever keys and values the input holds, the merge
    leaves the [api], [token], [audience] and [url] of the [User] as they
    were, and creates or changes no property named like a member of the
    class; every other key of the input ends up on the [User] with the
    input's value, except that a merge flagged as coming from storage
    then sets [_fromStorage] to [true]. *)
Theorem merge_protects_and_copies (w : World) (this : loc)
  (attributes : Object) (fromStorage : bool) (k : string) :
  let w' := _saveUserData this attributes fromStorage w in
  (k ∈ forbiddenUpdateAttributes \/ in_User_prototype k = true ->
   field w' this k = field w this k)
  /\ (this < length (heap w) ->
      k ∈ own_keys attributes ->
      k ∉ forbiddenUpdateAttributes ->
      in_User_prototype k = false ->
      (fromStorage = true -> k <> "_fromStorage") ->
      field w' this k = get (VObject attributes) k)
  /\ (this < length (heap w) ->
      fromStorage = true -> field w' this "_fromStorage" = VBool true).
Proof.
  cbv zeta. repeat apply conj.
  - intros Hprot.
    assert (Hskip :
      in_User_prototype k || key_in forbiddenUpdateAttributes k = true).
    { destruct Hprot as [Hin | ->]; [| reflexivity].
      rewrite (forbidden_key_in _ Hin). apply orb_true_r. }
    now apply field__saveUserData_protected.
  - intros Hlt Hin Hfree Hproto Hmarker.
    unfold field. rewrite object_at__saveUserData by exact Hlt.
    cbn [get].
    rewrite _saveUserData_object_copied; [reflexivity | exact Hin | |
      exact Hmarker].
    rewrite Hproto. cbn [orb]. unfold key_in.
    rewrite bool_decide_eq_false_2 by exact Hfree.
    cbn [orb]. unfold in_User_prototype in Hproto.
    now apply orb_false_iff in Hproto as [_ ->].
  - intros Hlt ->. now apply field__saveUserData_marker.
Qed.

End MergeFacts.

(** ** Session recovery *)

Section RecoveryFacts.
Context `{Host}.

Lemma truthy_not_nullish v : truthy v = true -> is_nullish v = false.
Proof. now destruct v. Qed.

Lemma recovery_api_not_nullish apiInstance url api :
  recovery_api apiInstance url = Return api -> is_nullish api = false.
Proof.
  unfold recovery_api, new_API.
  destruct (truthy apiInstance) eqn:E.
  - intros [= <-]. now apply truthy_not_nullish.
  - destruct (ToString _); [| discriminate]. now intros [= <-].
Qed.




Lemma recover_from_complete apiInstance json w data api :
  parse json ≫= destructure = Return data ->
  truthy (get data "url") = true ->
  truthy (get data "token") = true ->
  recovery_api apiInstance (get data "url") = Return api ->
  recover_from apiInstance json w
  = (Return (Some (length (heap w))),
     _saveUserData (length (heap w)) (properties data) true
       (snd (new_User api (get data "token") (get data "audience") w))).
Proof.
  intros Hparse Hurl Htoken Hapi. unfold recover_from.
  rewrite Hparse, Hurl, Htoken. cbn [negb orb].
  rewrite Hapi.
  now rewrite (new_User_eq _ _ _ _ (recovery_api_not_nullish _ _ _ Hapi)).
Qed.







End RecoveryFacts.
(** ** Authenticated requests *)

Section RequestFacts.
Context `{Host}.

Lemma _request_catch_msg error :
  json_shaped error = true ->
  truthy (get (json error) "msg") = true ->
  _request_catch error
  = mkError (cls error) (get (json error) "msg") (json error).
Proof.
  unfold json_shaped, _request_catch. now intros -> ->.
Qed.

Lemma _request_catch_composed error code description :
  json_shaped error = true ->
  truthy (get (json error) "msg") = false ->
  truthy (get (json error) "error") = true ->
  ToString (get (json error) "error") = Return code ->
  ToString (get (json error) "error_description") = Return description ->
  _request_catch error
  = mkError (cls error) (VString (code +:+ ": " +:+ description))
      (json error).
Proof.
  unfold json_shaped, _request_catch. now intros -> -> -> -> ->.
Qed.

Lemma _request_catch_other error :
  json_shaped error = false
  \/ truthy (get (json error) "msg") = false
     /\ truthy (get (json error) "error") = false ->
  _request_catch error = error.
Proof.
  unfold json_shaped, _request_catch.
  intros [-> | [-> ->]]; [reflexivity |].
  now destruct (instanceof_JSONHTTPError error && truthy (json error)).
Qed.

(** A string prints as itself. *)
Lemma ToString_string s : ToString (VString s) = Return s.
Proof. reflexivity. Qed.

(** C9 (amended): a failure of either [await] of an authenticated request
    is re-raised, never swallowed, as the same error with its message
    rewritten: for a [JSONHTTPError] with a body, the message becomes the
    [msg] field when that is truthy (present and not empty), else the
    composition of [error] and [error_description] as they print when
    [error] is truthy; in every other case the error stays as Transport
    produced it. The body [{error: "invalid_grant", error_description:
    "Invalid credentials"}] gives "invalid_grant: Invalid credentials". *)
Theorem request_error_rewritten (token response : Completion Value)
  (error : JSError) :
  first_failure token response = Some error ->
  User_request_result token response = Throw (_request_catch error)
  /\ GoTrue_request_result (Throw error) = Throw (_request_catch error)
  /\ (json_shaped error = true ->
      truthy (get (json error) "msg") = true ->
      _request_catch error
      = mkError (cls error) (get (json error) "msg") (json error))
  /\ (forall code description,
        json_shaped error = true ->
        truthy (get (json error) "msg") = false ->
        truthy (get (json error) "error") = true ->
        ToString (get (json error) "error") = Return code ->
        ToString (get (json error) "error_description")
        = Return description ->
        _request_catch error
        = mkError (cls error) (VString (code +:+ ": " +:+ description))
            (json error))
  /\ (json_shaped error = false
      \/ truthy (get (json error) "msg") = false
         /\ truthy (get (json error) "error") = false ->
      _request_catch error = error)
  /\ (cls error = JSONHTTPError ->
      json error = invalid_grant ->
      message (_request_catch error)
      = VString "invalid_grant: Invalid credentials").
Proof.
  intros Hfirst. repeat apply conj.
  - unfold User_request_result, first_failure in *.
    destruct token as [v | e]; cbn in *.
    + destruct (ToString v) as [s | e]; cbn in *.
      * destruct response as [v' | e]; [discriminate |].
        now injection Hfirst as ->.
      * now injection Hfirst as ->.
    + now injection Hfirst as ->.
  - reflexivity.
  - apply _request_catch_msg.
  - intros code description. apply _request_catch_composed.
  - apply _request_catch_other.
  - intros Hcls Hjson. unfold _request_catch, instanceof_JSONHTTPError.
    now rewrite Hcls, Hjson.
Qed.

End RequestFacts.

(** ** Concurrent callers, end to end *)

Section Scenario.
Context `{Host}.

(** Callers of [jwt()] on a stale token before the refresh settles send
    one request between them, and when the response arrives each of them
    gets the new access token. *)
Theorem concurrent_callers_share_refresh this now nows key w response :
  is_nullish (tokenDetails w this) = false ->
  (forall now', now' ∈ now :: nows -> stale w this now') ->
  ToString (get (tokenDetails w this) "refresh_token") = Return key ->
  refreshPromises w !! key = None ->
  in_Object_prototype key = false ->
  this < length (heap w) ->
  truthy response = true ->
  exists ps w1,
    jwt_each this (now :: nows) w = (map Return ps, w1)
    /\ length ps = S (length nows)
    /\ length (requests w1) = S (length (requests w))
    /\ Forall
         (fun p =>
            await p (settle (length (tickets w)) (Responded response) w1)
            = Some (Return (get response "access_token"))) ps.
Proof.
  intros Hheld Hstale Hkey Hnone Hown Hlt Htruthy.
  destruct (single_flight this now nows key w Hheld Hstale Hkey Hnone Hown)
    as (w1 & Hcalls & Hreq & Htickets & Hheap).
  exists (map (fun _ => Refresh (length (tickets w))) (now :: nows)), w1.
  repeat apply conj.
  - rewrite Hcalls. f_equal. now rewrite map_map.
  - now rewrite length_map.
  - rewrite Hreq, length_app. cbn. lia.
  - assert (Hticket :
      tickets w1 !! length (tickets w) = Some (mkTicket this key None)).
    { rewrite Htickets. now apply list_lookup_middle. }
    assert (Hlt1 : this < length (heap w1)) by now rewrite Hheap.
    pose proof (await_settle_success _ _ _ _ _ Hticket Hlt1 Htruthy)
      as Hawait.
    apply Forall_forall. intros p Hin.
    apply list_elem_of_fmap in Hin as (x & -> & _). exact Hawait.
Qed.

End Scenario.

(** * Further properties of the code *)

(** ** The token codec *)

Section MoreCodecFacts.
Context `{Host}.
Import Base64 Base64Facts.

Lemma replace_all_fixed from to s :
  has_char from s = false -> replace_all from to s = s.
Proof.
  induction s as [| c s IH]; cbn [has_char replace_all]; [reflexivity |].
  intros Hfree. apply orb_false_iff in Hfree as [Hc Hs].
  now rewrite Hc, IH.
Qed.

Lemma has_char_replace_all from to c s :
  Ascii.eqb from c = false ->
  Ascii.eqb to c = false ->
  has_char c (replace_all from to s) = has_char c s.
Proof.
  intros Hfrom Hto.
  induction s as [| a s IH]; cbn [has_char replace_all]; [reflexivity |].
  rewrite IH. f_equal.
  destruct (Ascii.eqb a from) eqn:E; [| reflexivity].
  apply Ascii.eqb_eq in E as ->. now rewrite Hfrom, Hto.
Qed.

Lemma has_char_replaced from to s :
  Ascii.eqb to from = false -> has_char from (replace_all from to s) = false.
Proof.
  intros Hne.
  induction s as [| a s IH]; cbn [has_char replace_all]; [reflexivity |].
  rewrite IH, orb_false_r.
  destruct (Ascii.eqb a from) eqn:E; [exact Hne | exact E].
Qed.

(** The two replacements leave nothing to replace. *)
Lemma translate_translate s : translate (translate s) = translate s.
Proof.
  unfold translate.
  rewrite (replace_all_fixed "-" "+").
  - apply replace_all_fixed. now apply has_char_replaced.
  - rewrite has_char_replace_all by reflexivity.
    now apply has_char_replaced.
Qed.

Lemma urlBase64Decode_translate s :
  urlBase64Decode (translate s) = urlBase64Decode s.
Proof.
  unfold urlBase64Decode. fold (translate (translate s)) (translate s).
  now rewrite translate_translate.
Qed.

Lemma encode_translate bs : encode bs = translate (encode_url_padded bs).
Proof.
  unfold encode, encode_url_padded.
  destruct (sextets_padding bs) as (k & n & _ & Hpad).
  now rewrite translate_append, (translate_digits _ (sextets_bound bs)),
    (translate_padding _ _ Hpad).
Qed.

(** X1: [urlBase64Decode] inverts the encoding of every byte string in
    each of its three spellings: base64url without padding (the form of a
    JWT segment), base64url with padding, and standard base64. The
    result is the bytes as [TextDecoder] reads them, or the bytes
    themselves where [TextDecoder] throws. *)
Theorem urlBase64Decode_round_trip (bs : string) :
  decodes bs ->
  urlBase64Decode (encode_url bs)
  = Return (default bs (TextDecoder_decode bs))
  /\ urlBase64Decode (encode_url_padded bs)
     = Return (default bs (TextDecoder_decode bs))
  /\ urlBase64Decode (encode bs)
     = Return (default bs (TextDecoder_decode bs)).
Proof.
  intros Hhost.
  pose proof (urlBase64Decode_encode_url bs false Hhost) as Hbare.
  pose proof (urlBase64Decode_encode_url bs true Hhost) as Hpadded.
  assert (Hnil : forall s, s +:+ EmptyString = s).
  { intros s. induction s as [| c s IH]; [reflexivity |].
    now rewrite append_cons, IH. }
  rewrite Hnil in Hbare.
  repeat apply conj.
  - exact Hbare.
  - exact Hpadded.
  - rewrite encode_translate, urlBase64Decode_translate. exact Hpadded.
Qed.

Lemma has_char_remove_whitespace c s :
  is_whitespace c = false ->
  has_char c (remove_whitespace s) = has_char c s.
Proof.
  intros Hc.
  induction s as [| a s IH]; cbn [has_char remove_whitespace];
    [reflexivity |].
  destruct (is_whitespace a) eqn:Ha; cbn [has_char]; rewrite IH.
  - destruct (Ascii.eqb a c) eqn:E; [| reflexivity].
    apply Ascii.eqb_eq in E as ->. congruence.
  - reflexivity.
Qed.

Lemma has_char_drop_trailing_pad c s :
  Ascii.eqb pad_char c = false ->
  has_char c (drop_trailing_pad s) = has_char c s.
Proof.
  intros Hc.
  enough (Hboth :
    has_char c (drop_trailing_pad s) = has_char c s
    /\ forall a,
         has_char c (drop_trailing_pad (String a s))
         = has_char c (String a s)) by apply Hboth.
  induction s as [| b s [IH IHcons]].
  - split; [reflexivity |]. intros a. cbn [drop_trailing_pad].
    destruct (Ascii.eqb a pad_char) eqn:E; [| reflexivity].
    apply Ascii.eqb_eq in E as ->. cbn [has_char]. now rewrite Hc.
  - split; [apply IHcons |]. intros a.
    destruct s as [| d s].
    + cbn [drop_trailing_pad].
      destruct (Ascii.eqb b pad_char) eqn:Eb; [| reflexivity].
      apply Ascii.eqb_eq in Eb as ->.
      destruct (Ascii.eqb a pad_char) eqn:Ea.
      * apply Ascii.eqb_eq in Ea as ->. cbn [has_char]. now rewrite Hc.
      * cbn [has_char]. now rewrite Hc.
    + change (drop_trailing_pad (String a (String b (String d s))))
        with (String a (drop_trailing_pad (String b (String d s)))).
      cbn [has_char]. rewrite (IHcons b). reflexivity.
Qed.

Lemma values_foreign c s :
  value c = None -> has_char c s = true -> values s = None.
Proof.
  intros Hc.
  induction s as [| a s IH]; cbn [has_char values]; [discriminate |].
  intros Hin. apply orb_true_iff in Hin as [Ha | Hs].
  - apply Ascii.eqb_eq in Ha as ->. now rewrite Hc.
  - rewrite (IH Hs). now destruct (value a).
Qed.

Lemma atob_foreign c s :
  value c = None ->
  is_whitespace c = false ->
  Ascii.eqb pad_char c = false ->
  has_char c s = true ->
  atob s = None.
Proof.
  intros Hvalue Hspace Hpad Hin. unfold atob.
  set (data := remove_whitespace s).
  assert (Hdata : has_char c data = true)
    by (subst data; now rewrite has_char_remove_whitespace).
  set (data' := if (N.of_nat (String.length data) mod 4 =? 0)%N
                then drop_trailing_pad data else data).
  assert (Hdata' : has_char c data' = true).
  { subst data'. destruct (_ =? _)%N; [| exact Hdata].
    now rewrite has_char_drop_trailing_pad. }
  destruct (_ =? 1)%N; [reflexivity |].
  now rewrite (values_foreign _ _ Hvalue Hdata').
Qed.

(** X2: where the platform has [atob], a segment holding a character that
    is no base64 digit in either alphabet, no whitespace and no [=] is
    never decoded: [urlBase64Decode] throws, either for the length or
    with the [InvalidCharacterError] of [atob]. *)
Theorem urlBase64Decode_foreign (c : ascii) (str : string) :
  atob_defined = true ->
  value c = None ->
  Ascii.eqb "-" c = false ->
  Ascii.eqb "_" c = false ->
  is_whitespace c = false ->
  Ascii.eqb pad_char c = false ->
  has_char c str = true ->
  urlBase64Decode str = Throw (new_Error "Illegal base64url string!")
  \/ urlBase64Decode str
     = Throw (mkError InvalidCharacterError (VString atob_error) VUndefined).
Proof.
  intros Hatob Hvalue Hminus Hunder Hspace Hpad Hin.
  assert (Hplus : Ascii.eqb "+" c = false).
  { destruct (Ascii.eqb "+" c) eqn:E; [| reflexivity].
    apply Ascii.eqb_eq in E as <-. discriminate Hvalue. }
  assert (Hslash : Ascii.eqb "/" c = false).
  { destruct (Ascii.eqb "/" c) eqn:E; [| reflexivity].
    apply Ascii.eqb_eq in E as <-. discriminate Hvalue. }
  unfold urlBase64Decode.
  set (output := replace_all "_" "/" (replace_all "-" "+" str)).
  assert (Hout : has_char c output = true).
  { subst output. now rewrite !has_char_replace_all. }
  assert (Hthrow : forall pad,
    (base64Decode (output +:+ pad)
       ≫= fun binaryString =>
            Return (default binaryString (TextDecoder_decode binaryString)))
    = Throw (mkError InvalidCharacterError (VString atob_error) VUndefined)).
  { intros pad. unfold base64Decode. rewrite Hatob.
    rewrite (atob_foreign c); [reflexivity | assumption ..|].
    rewrite has_char_append, Hout. reflexivity. }
  assert (Hnil : output +:+ EmptyString = output).
  { generalize output. intros s. induction s as [| a s IH]; [reflexivity |].
    now rewrite append_cons, IH. }
  destruct (String.length output mod 4)%nat as [| [| [| [| n]]]];
    rewrite ?bind_Return, ?bind_Throw.
  - right. rewrite <- Hnil. apply Hthrow.
  - now left.
  - right. apply Hthrow.
  - right. apply Hthrow.
  - now left.
Qed.

End MoreCodecFacts.

(** ** The snapshot *)

Section SnapshotFacts.
Context `{Host}.

Lemma lookup_prop_own_keys k (o : Object) :
  lookup_prop k o = None <-> k ∉ own_keys o.
Proof.
  induction o as [| [k0 v0] o IH]; cbn [lookup_prop own_keys map fst].
  - split; [intros _; apply not_elem_of_nil | reflexivity].
  - rewrite not_elem_of_cons.
    destruct (String.eqb k0 k) eqn:E.
    + apply String.eqb_eq in E as ->.
      split; [discriminate | intros [Hne _]; contradiction].
    + apply String.eqb_neq in E. rewrite IH.
      split; [intros Hin; split; [congruence | exact Hin] | now intros [_ Hin]].
Qed.

(** The loop of [_details] never writes under a key it skips. *)
Lemma copy_details_skipped keys (this userCopy : Object) k :
  in_User_prototype k || key_in forbiddenSaveAttributes k = true ->
  lookup_prop k (copy_details keys this userCopy) = lookup_prop k userCopy.
Proof.
  intros Hskip. revert userCopy.
  induction keys as [| key keys IH]; intros userCopy; cbn [copy_details];
    [reflexivity |].
  destruct (in_User_prototype key || key_in forbiddenSaveAttributes key)
    eqn:E; rewrite IH; [reflexivity |].
  apply lookup_prop_assign_ne. intros ->. congruence.
Qed.

Lemma _details_lookup w this k :
  lookup_prop k (_details w this)
  = if in_User_prototype k || key_in forbiddenSaveAttributes k then None
    else lookup_prop k (object_at w this).
Proof.
  unfold _details.
  destruct (in_User_prototype k || key_in forbiddenSaveAttributes k) eqn:E.
  - now rewrite copy_details_skipped.
  - rewrite copy_details_lookup by exact E.
    destruct (decide (k ∈ own_keys (object_at w this))) as [Hin | Hout].
    + rewrite bool_decide_eq_true_2 by exact Hin. cbn [get lookup_prop].
      destruct (lookup_prop k (object_at w this)) eqn:Hk; [reflexivity |].
      now apply lookup_prop_own_keys in Hk.
    + rewrite bool_decide_eq_false_2 by exact Hout. cbn [lookup_prop].
      symmetry. now apply lookup_prop_own_keys.
Qed.

(** X3: the snapshot [_details] holds exactly the own properties of the
    [User] under their values, except [api] and whatever is named like a
    member of the class; so the transport handle is never serialised,
    and the [token], [url] and [audience] always are when set. *)
Theorem snapshot_is_exact (w : World) (this : loc) (k : string) :
  lookup_prop k (_details w this)
  = (if in_User_prototype k || key_in forbiddenSaveAttributes k then None
     else lookup_prop k (object_at w this))
  /\ lookup_prop "api" (_details w this) = None
  /\ lookup_prop "token" (_details w this)
     = lookup_prop "token" (object_at w this)
  /\ lookup_prop "url" (_details w this)
     = lookup_prop "url" (object_at w this)
  /\ lookup_prop "audience" (_details w this)
     = lookup_prop "audience" (object_at w this).
Proof.
  repeat apply conj; rewrite _details_lookup; reflexivity.
Qed.

Lemma get__details w this k :
  in_User_prototype k || key_in forbiddenSaveAttributes k = false ->
  get (VObject (_details w this)) k = field w this k.
Proof.
  intros Hkeep. unfold field. cbn [get].
  now rewrite _details_lookup, Hkeep.
Qed.

End SnapshotFacts.

(** ** What each operation leaves alone *)

Section FrameFacts.
Context `{Host}.

Lemma field_alter_token_ne v that this k (h : list Object) :
  k <> "token" ->
  get (VObject (default [] (alter (assign "token" v) that h !! this))) k
  = get (VObject (default [] (h !! this))) k.
Proof.
  intros Hne. destruct (decide (that = this)) as [-> | Hthat].
  - rewrite list_lookup_alter_eq.
    destruct (h !! this) as [o |]; cbn; [| reflexivity].
    rewrite lookup_prop_assign_ne; [reflexivity | congruence].
  - now rewrite list_lookup_alter_ne.
Qed.

(** [_processTokenResponse] writes the [token] of its [User] and may log;
    it does nothing else, whether it returns or not. *)
Lemma _processTokenResponse_world this tokenResponse w :
  exists r v logs,
    _processTokenResponse this tokenResponse w
    = (r,
       mkWorld (isBrowser w) (localStorage w) (currentUser w)
         (refreshPromises w) (alter (assign "token" v) this (heap w))
         (tickets w) (requests w) (console w ++ logs)).
Proof.
  unfold _processTokenResponse.
  destruct (claims_expiry tokenResponse) as [expires_at | error].
  - eexists _, _, []. unfold set_field, with_heap. cbn.
    rewrite list_alter_alter_eq, app_nil_r. do 2 f_equal.
    apply list_alter_ext; [| reflexivity].
    intros o _. apply assign_assign.
  - destruct (Error_toString error) as [text | error'].
    + eexists _, _, [_]. reflexivity.
    + eexists _, _, []. unfold set_field, with_heap. cbn.
      now rewrite app_nil_r.
Qed.

(** [new User] appends one object to the heap and may log; the storage,
    the registry, the tickets and the requests stay as they are. *)
Lemma new_User_world api tokenResponse audience w :
  exists r o logs user,
    new_User api tokenResponse audience w
    = (r,
       mkWorld (isBrowser w) (localStorage w) user (refreshPromises w)
         (heap w ++ [o]) (tickets w) (requests w) (console w ++ logs))
    /\ (forall u, r = Return u -> u = length (heap w))
    /\ length logs <= 1
    /\ (forall error, r = Throw error -> logs = []).
Proof.
  destruct (is_nullish api) eqn:Hapi.
  - unfold new_User, read. rewrite Hapi.
    eexists _, _, [], _. unfold set_field, with_heap. cbn.
    rewrite alter_last, app_nil_r.
    repeat apply conj; [reflexivity | discriminate | lia | reflexivity].
  - rewrite (new_User_eq _ _ _ _ Hapi). eexists _, _, _, _.
    repeat apply conj; [reflexivity | now intros u [= <-] | | discriminate].
    unfold decode_log. destruct (claims_expiry tokenResponse); cbn; lia.
Qed.

Lemma _saveUserData_world this attributes fromStorage w :
  _saveUserData this attributes fromStorage w
  = mkWorld (isBrowser w) (localStorage w) (currentUser w)
      (refreshPromises w)
      (alter (_saveUserData_object attributes fromStorage) this (heap w))
      (tickets w) (requests w) (console w).
Proof. reflexivity. Qed.

Lemma removeSavedSession_eq w :
  removeSavedSession w
  = mkWorld (isBrowser w)
      (if isBrowser w then delete storageKey (localStorage w)
       else localStorage w)
      (currentUser w) (refreshPromises w) (heap w) (tickets w) (requests w)
      (console w).
Proof.
  unfold removeSavedSession. destruct w as [[] ? ? ? ? ? ? ?]; reflexivity.
Qed.

Lemma _saveSession_eq this w :
  _saveSession this w
  = mkWorld (isBrowser w)
      (if isBrowser w
       then <[storageKey := JSON_stringify (VObject (_details w this))]>
              (localStorage w)
       else localStorage w)
      (currentUser w) (refreshPromises w) (heap w) (tickets w) (requests w)
      (console w).
Proof.
  unfold _saveSession. destruct w as [[] ? ? ? ? ? ? ?]; reflexivity.
Qed.

(** [recoverSession] appends at most one object to the heap and logs at
    most once; the storage is read, never written. *)
Lemma recoverSession_world apiInstance w :
  exists r h logs user,
    recoverSession apiInstance w
    = (r,
       mkWorld (isBrowser w) (localStorage w) user (refreshPromises w)
         (heap w ++ h) (tickets w) (requests w) (console w ++ logs))
    /\ length h <= 1
    /\ length logs <= 1.
Proof.
  unfold recoverSession.
  destruct (currentUser w) as [user |] eqn:Hcur.
  { exists (Return (Some user)), [], [], (currentUser w).
    rewrite !app_nil_r, Hcur. split; [| cbn; lia].
    f_equal. rewrite <- Hcur. apply World_eta. }
  destruct (saved_session w) as [json |].
  2: { exists (Return None), [], [], (currentUser w).
       rewrite !app_nil_r. split; [| cbn; lia].
       f_equal. apply World_eta. }
  assert (Hfrom : exists r h logs user,
    recover_from apiInstance json w
    = (r,
       mkWorld (isBrowser w) (localStorage w) user (refreshPromises w)
         (heap w ++ h) (tickets w) (requests w) (console w ++ logs))
    /\ length h <= 1
    /\ length logs <= 1
    /\ (forall error, r = Throw error -> logs = [])).
  { unfold recover_from.
    destruct (parse json ≫= destructure) as [data | error].
    2: { eexists _, [], [], _. rewrite !app_nil_r.
         split; [f_equal; apply World_eta | cbn; auto with lia]. }
    destruct (negb (truthy (get data "url"))
              || negb (truthy (get data "token"))).
    { eexists _, [], [], _. rewrite !app_nil_r.
      split; [f_equal; apply World_eta | cbn; auto with lia]. }
    destruct (recovery_api apiInstance (get data "url")) as [api | error].
    2: { eexists _, [], [], _. rewrite !app_nil_r.
         split; [f_equal; apply World_eta | cbn; auto with lia]. }
    destruct (new_User_world api (get data "token") (get data "audience") w)
      as (r & o & logs & user & -> & Hu & Hlogs & Hthrow).
    destruct r as [u | error].
    - eexists _, [_], logs, user. split.
      + rewrite _saveUserData_world. cbn.
        rewrite (Hu u eq_refl). now rewrite alter_last.
      + repeat apply conj; [cbn; lia | exact Hlogs |].
        intros ? Hne. discriminate Hne.
    - eexists _, [o], logs, user.
      split; [reflexivity |].
      repeat apply conj; [cbn; lia | exact Hlogs |].
      intros error' _. now apply (Hthrow error). }
  destruct Hfrom as (r & h & logs & user & -> & Hlen & Hlogs & Hthrow).
  destruct r as [result | error].
  - eexists _, h, logs, user. split; [| split; assumption].
    now destruct result.
  - rewrite (Hthrow error eq_refl), app_nil_r.
    destruct (Error_toString error) as [text | error'].
    + eexists _, h, [_], user. split; [reflexivity |].
      split; [exact Hlen | cbn; lia].
    + eexists _, h, [], user. rewrite app_nil_r.
      split; [reflexivity |]. split; [exact Hlen | cbn; lia].
Qed.

(** [_refreshToken] joins, declines or starts: only a start changes the
    state. *)
Lemma _refreshToken_world this refresh_token w :
  (exists r,
     _refreshToken this refresh_token w = (r, w)
     /\ forall t, r = Return (Refresh t) ->
                  exists key, refreshPromises w !! key = Some t)
  \/ (exists key,
        refreshPromises w !! key = None
        /\ in_Object_prototype key = false
        /\ _refreshToken this refresh_token w
           = (Return (Refresh (length (tickets w))),
              mkWorld (isBrowser w) (localStorage w) (currentUser w)
                (<[key := length (tickets w)]> (refreshPromises w))
                (heap w)
                (tickets w ++ [mkTicket this key None])
                (requests w ++ [refresh_request (field w this "api") key])
                (console w))).
Proof.
  unfold _refreshToken.
  destruct (ToString refresh_token) as [key | error].
  2: { left. eexists. split; [reflexivity | discriminate]. }
  destruct (refreshPromises w !! key) as [t |] eqn:Hreg.
  { left. eexists. split; [reflexivity |]. intros t' [= <-]. eauto. }
  destruct (in_Object_prototype key) eqn:Hproto.
  { left. eexists. split; [reflexivity | discriminate]. }
  right. exists key. repeat split; assumption.
Qed.

Lemma jwt_world this forceRefresh now w :
  (exists r,
     jwt this forceRefresh now w = (r, w)
     /\ forall t, r = Return (Refresh t) ->
                  exists key, refreshPromises w !! key = Some t)
  \/ (exists key,
        refreshPromises w !! key = None
        /\ in_Object_prototype key = false
        /\ jwt this forceRefresh now w
           = (Return (Refresh (length (tickets w))),
              mkWorld (isBrowser w) (localStorage w) (currentUser w)
                (<[key := length (tickets w)]> (refreshPromises w))
                (heap w)
                (tickets w ++ [mkTicket this key None])
                (requests w ++ [refresh_request (field w this "api") key])
                (console w))).
Proof.
  unfold jwt.
  destruct (is_nullish (tokenDetails w this)).
  { left. eexists. split; [reflexivity | discriminate]. }
  destruct (if forceRefresh then Return true
            else expired (get (tokenDetails w this) "expires_at") now)
    as [[|] | error].
  - apply _refreshToken_world.
  - left. eexists. split; [reflexivity | discriminate].
  - left. eexists. split; [reflexivity | discriminate].
Qed.

Lemma refresh_rejected_eq this key error w :
  refresh_rejected this key error w
  = (Throw error,
     mkWorld (isBrowser w)
       (if isBrowser w then delete storageKey (localStorage w)
        else localStorage w)
       None (delete key (refreshPromises w))
       (alter (assign "token" VNull) this (heap w))
       (tickets w) (requests w) (console w)).
Proof.
  unfold refresh_rejected. now rewrite clearSession_eq.
Qed.

Lemma alter_token_twice v v' this (h : list Object) :
  alter (assign "token" v) this (alter (assign "token" v') this h)
  = alter (assign "token" v) this h.
Proof.
  rewrite list_alter_alter_eq. apply list_alter_ext; [| reflexivity].
  intros o _. apply assign_assign.
Qed.

(** Settling a pending ticket: its key leaves the registry, the ticket
    gets its outcome, the [token] of its owner is written; the requests
    stay, the log can only grow. *)
Lemma settle_world t s w this key :
  tickets w !! t = Some (mkTicket this key None) ->
  exists r v logs storage user,
    settle t s w
    = mkWorld (isBrowser w) storage user (delete key (refreshPromises w))
        (alter (assign "token" v) this (heap w))
        (alter (fun c => mkTicket (owner c) (registry_key c) (Some r)) t
           (tickets w))
        (requests w) (console w ++ logs).
Proof.
  intros Hticket. unfold settle. rewrite Hticket.
  assert (Hrejected : forall error v logs storage user,
    exists r v' logs' storage' user',
      settle_ticket t (fst (refresh_rejected this key error
        (mkWorld (isBrowser w) storage user (delete key (refreshPromises w))
           (alter (assign "token" v) this (heap w)) (tickets w)
           (requests w) (console w ++ logs))))
        (snd (refresh_rejected this key error
        (mkWorld (isBrowser w) storage user (delete key (refreshPromises w))
           (alter (assign "token" v) this (heap w)) (tickets w)
           (requests w) (console w ++ logs))))
      = mkWorld (isBrowser w) storage' user'
          (delete key (refreshPromises w))
          (alter (assign "token" v') this (heap w))
          (alter (fun c => mkTicket (owner c) (registry_key c) (Some r)) t
             (tickets w))
          (requests w) (console w ++ logs')).
  { intros error v logs storage user. rewrite refresh_rejected_eq.
    cbn [fst snd isBrowser localStorage refreshPromises heap tickets
         requests console].
    eexists _, _, _, _, _. unfold settle_ticket, with_tickets.
    cbn [isBrowser localStorage currentUser refreshPromises heap tickets
         requests console].
    now rewrite delete_delete_eq, alter_token_twice. }
  destruct (race s) as [response | error].
  - unfold refresh_fulfilled.
    destruct (_processTokenResponse_world this response
                (with_refreshPromises (delete key) w))
      as (r & v & logs & ->).
    unfold with_refreshPromises.
    cbn [isBrowser localStorage currentUser refreshPromises heap tickets
         requests console].
    destruct r as [[] | error].
    + rewrite _refreshSavedSession_eq.
      cbn [isBrowser localStorage currentUser refreshPromises heap tickets
           requests console].
      match goal with
      | |- context [if truthy ?x then _ else _] => destruct (truthy x)
      end.
      * eexists _, _, _, _, _. reflexivity.
      * match goal with
        | |- context [refresh_rejected this key ?e ?w0] =>
            destruct (Hrejected e v logs (localStorage w0) (currentUser w))
              as (r' & v' & logs' & storage' & user' & Hr)
        end.
        destruct (refresh_rejected this key _ _) as [r0 w0] eqn:E.
        cbn [fst snd] in Hr. eexists _, _, _, _, _. exact Hr.
    + destruct (Hrejected error v logs (localStorage w) (currentUser w))
        as (r' & v' & logs' & storage' & user' & Hr).
      destruct (refresh_rejected this key _ _) as [r0 w0] eqn:E.
      cbn [fst snd] in Hr. eexists _, _, _, _, _. exact Hr.
  - rewrite refresh_rejected_eq. eexists _, _, [], _, _.
    unfold settle_ticket, with_tickets.
    cbn [isBrowser localStorage currentUser refreshPromises heap tickets
         requests console].
    now rewrite app_nil_r.
Qed.

(** A ticket that is not pending cannot be settled. *)
Lemma settle_not_pending t s w :
  (forall this key, tickets w !! t <> Some (mkTicket this key None)) ->
  settle t s w = w.
Proof.
  intros Hnot. unfold settle.
  destruct (tickets w !! t) as [[this key [r |]] |] eqn:E; try reflexivity.
  now contradiction (Hnot this key).
Qed.

Lemma saved_session_ext w1 w2 :
  isBrowser w1 = isBrowser w2 ->
  localStorage w1 = localStorage w2 ->
  saved_session w1 = saved_session w2.
Proof. unfold saved_session, getItem. now intros -> ->. Qed.

(** Settling a refresh writes no snapshot where none is saved. *)
Lemma settle_saved_session t s w :
  saved_session w = None -> saved_session (settle t s w) = None.
Proof.
  intros Hnone. unfold settle.
  destruct (tickets w !! t) as [[this key [r |]] |]; try exact Hnone.
  assert (Hrejected : forall error w0,
    saved_session
      (settle_ticket t (fst (refresh_rejected this key error w0))
         (snd (refresh_rejected this key error w0))) = None).
  { intros error w0. unfold refresh_rejected. cbn [fst snd].
    rewrite <- (saved_session_clearSession this
                  (with_refreshPromises (delete key) w0)).
    now apply saved_session_ext. }
  destruct (race s) as [response | error].
  - unfold refresh_fulfilled.
    destruct (_processTokenResponse_world this response
                (with_refreshPromises (delete key) w))
      as (r & v & logs & ->).
    destruct r as [[] | error].
    + set (w1 := mkWorld _ _ _ _ _ _ _ _).
      assert (Hw1 : saved_session w1 = None)
        by (rewrite <- Hnone; now apply saved_session_ext).
      assert (Hsame : _refreshSavedSession this w1 = w1)
        by (unfold _refreshSavedSession; now rewrite Hw1).
      rewrite Hsame.
      destruct (truthy (field w1 this "token")).
      * rewrite <- Hw1. now apply saved_session_ext.
      * specialize (Hrejected
          (new_Error "Gotrue-js: Token not set after refresh") w1).
        destruct (refresh_rejected this key _ w1). exact Hrejected.
    + match goal with
      | |- context [refresh_rejected this key error ?w0] =>
          specialize (Hrejected error w0);
          destruct (refresh_rejected this key error w0)
      end.
      exact Hrejected.
  - specialize (Hrejected error w).
    destruct (refresh_rejected this key error w). exact Hrejected.
Qed.

End FrameFacts.

(** ** Invariants of the process-wide state *)

Section Invariants.
Context `{Host}.

Lemma registry_consistent_ext w1 w2 :
  refreshPromises w1 = refreshPromises w2 ->
  tickets w1 = tickets w2 ->
  registry_consistent w1 -> registry_consistent w2.
Proof. unfold registry_consistent. now intros <- <-. Qed.

(** Starting a refresh keeps the registry and the tickets in step. *)
Lemma registry_consistent_start w this key user storage h reqs logs :
  refreshPromises w !! key = None ->
  registry_consistent w ->
  registry_consistent
    (mkWorld (isBrowser w) storage user
       (<[key := length (tickets w)]> (refreshPromises w)) h
       (tickets w ++ [mkTicket this key None]) reqs logs).
Proof.
  intros Hnone Hinv key' t'. cbn [refreshPromises tickets]. split.
  - intros Hreg. destruct (decide (key' = key)) as [-> | Hne].
    + rewrite lookup_insert_eq in Hreg. injection Hreg as <-.
      exists this. now apply list_lookup_middle.
    + rewrite lookup_insert_ne in Hreg by congruence.
      apply Hinv in Hreg as [owner Hticket]. exists owner.
      rewrite lookup_app_l; [exact Hticket |].
      now apply lookup_lt_Some in Hticket.
  - intros [owner Hticket].
    destruct (decide (t' < length (tickets w))) as [Hlt | Hge].
    + rewrite lookup_app_l in Hticket by exact Hlt.
      assert (Hreg : refreshPromises w !! key' = Some t')
        by (apply Hinv; eauto).
      rewrite lookup_insert_ne; [exact Hreg | congruence].
    + rewrite lookup_app_r in Hticket by lia.
      destruct (t' - length (tickets w)) as [| n] eqn:E;
        [| now destruct n].
      injection Hticket as <- <-.
      replace t' with (length (tickets w)) by lia.
      apply lookup_insert_eq.
Qed.

(** Settling a ticket keeps them in step as well. *)
Lemma registry_consistent_settle w t this key r user storage h reqs logs :
  tickets w !! t = Some (mkTicket this key None) ->
  registry_consistent w ->
  registry_consistent
    (mkWorld (isBrowser w) storage user (delete key (refreshPromises w)) h
       (alter (fun c => mkTicket (owner c) (registry_key c) (Some r)) t
          (tickets w)) reqs logs).
Proof.
  intros Hticket Hinv key' t'. cbn [refreshPromises tickets].
  assert (Hreg : refreshPromises w !! key = Some t) by (apply Hinv; eauto).
  split.
  - intros Hreg'. destruct (decide (key' = key)) as [-> | Hne].
    + now rewrite lookup_delete_eq in Hreg'.
    + rewrite lookup_delete_ne in Hreg' by congruence.
      apply Hinv in Hreg' as [owner' Hticket']. exists owner'.
      rewrite list_lookup_alter_ne; [exact Hticket' |].
      intros <-. rewrite Hticket in Hticket'. congruence.
  - intros [owner' Hticket'].
    destruct (decide (t' = t)) as [-> | Hne].
    + rewrite list_lookup_alter_eq, Hticket in Hticket'.
      discriminate Hticket'.
    + rewrite list_lookup_alter_ne in Hticket' by congruence.
      assert (Hreg' : refreshPromises w !! key' = Some t')
        by (apply Hinv; eauto).
      rewrite lookup_delete_ne; [exact Hreg' |].
      intros <-. rewrite Hreg in Hreg'. congruence.
Qed.

Lemma registry_consistent_run op w :
  registry_consistent w -> registry_consistent (run op w).
Proof.
  intros Hinv. destruct op as [api tokenResponse audience | this force now
    | t s | this attributes fromStorage | this | this | this |
    | apiInstance]; cbn [run].
  - destruct (new_User_world api tokenResponse audience w)
      as (r & o & logs & user & -> & _).
    now apply (registry_consistent_ext w).
  - destruct (jwt_world this force now w)
      as [(r & -> & _) | (key & Hnone & _ & ->)]; [exact Hinv |].
    now apply registry_consistent_start.
  - destruct (tickets w !! t) as [[this key [r |]] |] eqn:E.
    + rewrite settle_not_pending; [exact Hinv | congruence].
    + destruct (settle_world t s w this key E)
        as (r & v & logs & storage & user & ->).
      eapply registry_consistent_settle; eassumption.
    + rewrite settle_not_pending; [exact Hinv | congruence].
  - now apply (registry_consistent_ext w).
  - rewrite _refreshSavedSession_eq. now apply (registry_consistent_ext w).
  - rewrite _saveSession_eq. now apply (registry_consistent_ext w).
  - rewrite clearSession_eq. now apply (registry_consistent_ext w).
  - rewrite removeSavedSession_eq. now apply (registry_consistent_ext w).
  - destruct (recoverSession_world apiInstance w)
      as (r & h & logs & user & -> & _).
    now apply (registry_consistent_ext w).
Qed.

Lemma registry_consistent_run_all ops w :
  registry_consistent w -> registry_consistent (run_all ops w).
Proof.
  revert w. induction ops as [| op ops IH]; intros w Hinv; cbn [run_all];
    [exact Hinv |].
  apply IH. now apply registry_consistent_run.
Qed.

Lemma registry_consistent_initial w :
  tickets w = [] -> refreshPromises w = ∅ -> registry_consistent w.
Proof.
  intros Htickets Hreg key t. rewrite Htickets, Hreg. split.
  - now rewrite lookup_empty.
  - now intros [this Hticket].
Qed.

(** X4: the refresh registry and the promises stay in step. In every
    state a program reaches from a page load (no refresh started yet),
    whatever it does, the registry holds a ticket under a key exactly
    when that ticket is a refresh still in flight started for that key:
    so at most one refresh is in flight per refresh token, and whenever
    [jwt()] hands out a refresh promise, that refresh has not settled
    yet: no caller is ever joined to an earlier outcome. *)
Theorem registry_invariant (ops : list Operation) (w : World) :
  tickets w = [] ->
  refreshPromises w = ∅ ->
  let w' := run_all ops w in
  registry_consistent w'
  /\ (forall t1 t2 this1 this2 key,
        tickets w' !! t1 = Some (mkTicket this1 key None) ->
        tickets w' !! t2 = Some (mkTicket this2 key None) ->
        t1 = t2)
  /\ (forall this forceRefresh now t w'',
        jwt this forceRefresh now w' = (Return (Refresh t), w'') ->
        exists owner key, tickets w'' !! t = Some (mkTicket owner key None)).
Proof.
  intros Htickets Hreg. cbv zeta.
  pose proof (registry_consistent_run_all ops w
                (registry_consistent_initial w Htickets Hreg)) as Hinv.
  repeat apply conj.
  - exact Hinv.
  - intros t1 t2 this1 this2 key H1 H2.
    assert (Hr1 : refreshPromises (run_all ops w) !! key = Some t1)
      by (apply Hinv; eauto).
    assert (Hr2 : refreshPromises (run_all ops w) !! key = Some t2)
      by (apply Hinv; eauto).
    congruence.
  - intros this force now t w'' Hjwt.
    destruct (jwt_world this force now (run_all ops w))
      as [(r & Heq & Hjoined) | (key & Hnone & _ & Heq)];
      rewrite Heq in Hjwt.
    + injection Hjwt as -> <-.
      destruct (Hjoined t eq_refl) as [key Hkey].
      apply Hinv in Hkey as [owner Hticket]. eauto.
    + injection Hjwt as <- <-. cbn [tickets].
      exists this, key. now apply list_lookup_middle.
Qed.

Lemma saved_session_run op w :
  is_SaveSession op = false ->
  saved_session w = None ->
  saved_session (run op w) = None.
Proof.
  intros Hop Hnone. destruct op as [api tokenResponse audience
    | this force now | t s | this attributes fromStorage | this | this
    | this | | apiInstance]; cbn [run]; try discriminate Hop.
  - destruct (new_User_world api tokenResponse audience w)
      as (r & o & logs & user & -> & _).
    rewrite <- Hnone. now apply saved_session_ext.
  - destruct (jwt_world this force now w)
      as [(r & -> & _) | (key & _ & _ & ->)]; [exact Hnone |].
    rewrite <- Hnone. now apply saved_session_ext.
  - now apply settle_saved_session.
  - exact Hnone.
  - unfold _refreshSavedSession. now rewrite Hnone.
  - apply saved_session_clearSession.
  - rewrite removeSavedSession_eq. unfold saved_session, getItem. cbn.
    destruct (isBrowser w); [| reflexivity].
    now rewrite lookup_delete_eq.
  - destruct (recoverSession_world apiInstance w)
      as (r & h & logs & user & -> & _).
    rewrite <- Hnone. now apply saved_session_ext.
Qed.

Lemma saved_session_run_all ops w :
  saved_session w = None ->
  forallb (fun op => negb (is_SaveSession op)) ops = true ->
  saved_session (run_all ops w) = None.
Proof.
  revert w. induction ops as [| op ops IH]; intros w Hnone Hops;
    cbn [run_all]; [exact Hnone |].
  cbn [forallb] in Hops. apply andb_true_iff in Hops as [Hop Hops].
  apply IH; [| exact Hops].
  apply saved_session_run; [now apply negb_true_iff | exact Hnone].
Qed.

(** X5: persistence is opt-in. Where no snapshot is saved, no sequence of
    operations other than [_saveSession] itself saves one: constructing
    users, asking for tokens, refreshes that succeed or fail, merging
    attributes, [_refreshSavedSession], clearing and recovering all
    leave the storage key without a snapshot. *)
Theorem persistence_opt_in (ops : list Operation) (w : World) :
  saved_session w = None ->
  forallb (fun op => negb (is_SaveSession op)) ops = true ->
  saved_session (run_all ops w) = None.
Proof. apply saved_session_run_all. Qed.

Lemma identity_run op w this k :
  this < length (heap w) ->
  k ∈ ["api"; "url"; "audience"] ->
  field (run op w) this k = field w this k
  /\ this < length (heap (run op w)).
Proof.
  intros Hlt Hk.
  assert (Hcases : k = "api" \/ k = "url" \/ k = "audience").
  { rewrite !elem_of_cons in Hk.
    destruct Hk as [-> | [-> | [-> | Hk]]]; auto.
    now apply elem_of_nil in Hk. }
  assert (Hne : k <> "token")
    by (destruct Hcases as [-> | [-> | ->]]; discriminate).
  assert (Hprot :
    in_User_prototype k || key_in forbiddenUpdateAttributes k = true)
    by (destruct Hcases as [-> | [-> | ->]]; reflexivity).
  unfold field, object_at.
  destruct op as [api tokenResponse audience | that force now | t s
    | that attributes fromStorage | that | that | that | | apiInstance];
    cbn [run].
  - destruct (new_User_world api tokenResponse audience w)
      as (r & o & logs & user & -> & _).
    cbn [snd heap]. rewrite lookup_app_l by exact Hlt.
    split; [reflexivity | rewrite length_app; lia].
  - destruct (jwt_world that force now w)
      as [(r & -> & _) | (key & _ & _ & ->)]; now split.
  - destruct (tickets w !! t) as [[owner key [r |]] |] eqn:E.
    + rewrite settle_not_pending; [now split | congruence].
    + destruct (settle_world t s w owner key E)
        as (r & v & logs & storage & user & ->).
      cbn [heap]. rewrite length_alter.
      split; [now apply field_alter_token_ne | exact Hlt].
    + rewrite settle_not_pending; [now split | congruence].
  - rewrite _saveUserData_world. cbn [heap]. rewrite length_alter.
    split; [| exact Hlt].
    destruct (decide (that = this)) as [-> | Hthat].
    + rewrite list_lookup_alter_eq.
      destruct (heap w !! this) as [o |]; [| reflexivity].
      cbn [fmap option_fmap option_map default from_option id get].
      now rewrite _saveUserData_object_protected.
    + now rewrite list_lookup_alter_ne.
  - rewrite _refreshSavedSession_eq. now split.
  - rewrite _saveSession_eq. now split.
  - rewrite clearSession_eq. cbn [heap]. rewrite length_alter.
    split; [now apply field_alter_token_ne | exact Hlt].
  - rewrite removeSavedSession_eq. now split.
  - destruct (recoverSession_world apiInstance w)
      as (r & h & logs & user & -> & _).
    cbn [snd heap]. rewrite lookup_app_l by exact Hlt.
    split; [reflexivity | rewrite length_app; lia].
Qed.

(** X6: the identity of a [User] is fixed at construction. Whatever a
    program does afterwards with the operations of [user.ts] (any
    sequence of them, on this user or on others), the [api], [url] and
    [audience] properties of the user stay as the constructor set
    them. *)
Theorem identity_fixed (ops : list Operation) (w : World) (this : loc)
  (k : string) :
  this < length (heap w) ->
  k ∈ ["api"; "url"; "audience"] ->
  field (run_all ops w) this k = field w this k.
Proof.
  intros Hlt Hk. revert w Hlt.
  induction ops as [| op ops IH]; intros w Hlt; cbn [run_all];
    [reflexivity |].
  destruct (identity_run op w this k Hlt Hk) as [Hfield Hlt'].
  now rewrite IH, Hfield.
Qed.

(** X7: [recoverSession] only reads. Whatever it finds, it leaves the
    storage as it is (a snapshot that does not parse stays where it
    is), sends nothing, touches no refresh and no earlier [User]; it
    appends at most one [User] and logs at most one error. *)
Theorem recoverSession_only_reads (apiInstance : Value) (w : World) :
  let w' := snd (recoverSession apiInstance w) in
  localStorage w' = localStorage w
  /\ requests w' = requests w
  /\ refreshPromises w' = refreshPromises w
  /\ tickets w' = tickets w
  /\ (forall l, l < length (heap w) -> heap w' !! l = heap w !! l)
  /\ length (heap w') <= S (length (heap w))
  /\ exists logs, console w' = console w ++ logs /\ length logs <= 1.
Proof.
  cbv zeta.
  destruct (recoverSession_world apiInstance w)
    as (r & h & logs & user & -> & Hh & Hlogs).
  cbn [snd localStorage requests refreshPromises tickets heap console].
  repeat apply conj; try reflexivity.
  - intros l Hl. now apply lookup_app_l.
  - rewrite length_app. lia.
  - eauto.
Qed.

(** Outside a browser a settlement leaves the storage alone. *)
Lemma settle_storage t s w :
  isBrowser w = false ->
  isBrowser (settle t s w) = false
  /\ localStorage (settle t s w) = localStorage w.
Proof.
  intros Hserver. unfold settle.
  destruct (tickets w !! t) as [[this key [r |]] |]; try now split.
  assert (Hrejected : forall error w0,
    isBrowser w0 = false ->
    localStorage w0 = localStorage w ->
    isBrowser
      (settle_ticket t (fst (refresh_rejected this key error w0))
         (snd (refresh_rejected this key error w0))) = false
    /\ localStorage
         (settle_ticket t (fst (refresh_rejected this key error w0))
            (snd (refresh_rejected this key error w0)))
       = localStorage w).
  { intros error w0 Hs0 Hl0. rewrite refresh_rejected_eq, Hs0.
    cbn. now split. }
  destruct (race s) as [response | error].
  - unfold refresh_fulfilled.
    destruct (_processTokenResponse_world this response
                (with_refreshPromises (delete key) w))
      as (r & v & logs & ->).
    set (w1 := mkWorld _ _ _ _ _ _ _ _).
    assert (Hs1 : isBrowser w1 = false) by exact Hserver.
    assert (Hl1 : localStorage w1 = localStorage w) by reflexivity.
    destruct r as [[] | error].
    + assert (Hsame : _refreshSavedSession this w1 = w1).
      { unfold _refreshSavedSession, saved_session. now rewrite Hs1. }
      rewrite Hsame.
      destruct (truthy (field w1 this "token")); [now split |].
      specialize (Hrejected
        (new_Error "Gotrue-js: Token not set after refresh") w1 Hs1 Hl1).
      destruct (refresh_rejected this key _ w1). exact Hrejected.
    + specialize (Hrejected error w1 Hs1 Hl1).
      destruct (refresh_rejected this key error w1). exact Hrejected.
  - specialize (Hrejected error w Hserver eq_refl).
    destruct (refresh_rejected this key error w). exact Hrejected.
Qed.

Lemma storage_run op w :
  isBrowser w = false ->
  isBrowser (run op w) = false /\ localStorage (run op w) = localStorage w.
Proof.
  intros Hserver. destruct op as [api tokenResponse audience
    | this force now | t s | this attributes fromStorage | this | this
    | this | | apiInstance]; cbn [run].
  - destruct (new_User_world api tokenResponse audience w)
      as (r & o & logs & user & -> & _). now split.
  - destruct (jwt_world this force now w)
      as [(r & -> & _) | (key & _ & _ & ->)]; now split.
  - now apply settle_storage.
  - now split.
  - rewrite _refreshSavedSession_eq. unfold saved_session.
    rewrite Hserver. now split.
  - rewrite _saveSession_eq, Hserver. now split.
  - rewrite clearSession_eq, Hserver. now split.
  - rewrite removeSavedSession_eq, Hserver. now split.
  - destruct (recoverSession_world apiInstance w)
      as (r & h & logs & user & -> & _). now split.
Qed.

(** X8: outside a browser nothing is persisted and nothing recovered.
    Where there is no [window], no sequence of operations, [_saveSession]
    included, touches the storage; no snapshot is ever found, and
    [recoverSession] without a current user returns nothing and changes
    nothing. *)
Theorem nothing_persists_outside_a_browser (ops : list Operation)
  (w : World) (apiInstance : Value) :
  isBrowser w = false ->
  let w' := run_all ops w in
  isBrowser w' = false
  /\ localStorage w' = localStorage w
  /\ saved_session w' = None
  /\ (currentUser w' = None ->
      recoverSession apiInstance w' = (Return None, w')).
Proof.
  intros Hserver. cbv zeta.
  assert (Hall : isBrowser (run_all ops w) = false
                 /\ localStorage (run_all ops w) = localStorage w).
  { revert w Hserver.
    induction ops as [| op ops IH]; intros w Hserver; cbn [run_all];
      [now split |].
    destruct (storage_run op w Hserver) as [Hs Hl].
    destruct (IH _ Hs) as [Hs' Hl']. split; [exact Hs' | congruence]. }
  destruct Hall as [Hs Hl].
  assert (Hnone : saved_session (run_all ops w) = None)
    by (unfold saved_session; now rewrite Hs).
  repeat apply conj; try assumption.
  intros Hcur. unfold recoverSession. now rewrite Hcur, Hnone.
Qed.

End Invariants.

(** ** Sessions from end to end *)

Section SessionFacts.
Context `{Host}.








Lemma tokenDetails_settle_success t w this key response :
  tickets w !! t = Some (mkTicket this key None) ->
  this < length (heap w) ->
  truthy response = true ->
  tokenDetails (settle t (Responded response) w) this = with_expiry response.
Proof.
  intros Hticket Hlt Htruthy.
  rewrite (settle_success _ _ _ _ _ Hticket Hlt Htruthy).
  rewrite _refreshSavedSession_eq.
  rewrite _processTokenResponse_eq by exact Hlt.
  unfold tokenDetails, field, object_at, settle_ticket, with_tickets.
  cbn [snd heap with_refreshPromises].
  rewrite list_lookup_alter_eq.
  destruct (heap w !! this) as [o |] eqn:E.
  - cbn. now rewrite lookup_prop_assign_eq.
  - apply lookup_ge_None in E. lia.
Qed.

(** X12: after a successful refresh the new token is the one in use. If
    its decoded expiry is at least the margin away, [jwt()] answers with
    the new access token and sends nothing; if the new token is stale
    already, [jwt()] starts the next refresh with the refresh token of
    the response, not with the one just spent. *)
Theorem refreshed_token_is_used (t : ticket) (w : World) (this : loc)
  (key : string) (response : Value) (e now : Z) :
  tickets w !! t = Some (mkTicket this key None) ->
  this < length (heap w) ->
  truthy response = true ->
  claims_expiry response = Return (Num e) ->
  let w' := settle t (Responded response) w in
  ((60000 <= e - now)%Z ->
   jwt this false now w'
   = (Return (Promise_resolve (get response "access_token")), w'))
  /\ ((e - now < 60000)%Z ->
      jwt this false now w'
      = _refreshToken this (get response "refresh_token") w').
Proof.
  intros Hticket Hlt Htruthy Hclaims. cbv zeta.
  pose proof (tokenDetails_settle_success _ _ _ _ _ Hticket Hlt Htruthy)
    as Htok.
  unfold with_expiry in Htok. rewrite Hclaims in Htok.
  destruct (claims_expiry_object _ _ Hclaims) as [o ->].
  set (w' := settle t (Responded (VObject o)) w) in *.
  assert (Hheld : is_nullish (tokenDetails w' this) = false)
    by now rewrite Htok.
  assert (Hexp : get (tokenDetails w' this) "expires_at" = VNumber (Num e))
    by (rewrite Htok; apply get_set_eq; eauto).
  assert (Haccess : get (tokenDetails w' this) "access_token"
                    = get (VObject o) "access_token")
    by (rewrite Htok; now apply get_set_ne).
  assert (Hrefresh : get (tokenDetails w' this) "refresh_token"
                     = get (VObject o) "refresh_token")
    by (rewrite Htok; now apply get_set_ne).
  split; intros Hcmp.
  - rewrite <- Haccess. apply jwt_fresh; [exact Hheld |].
    rewrite Hexp. unfold expired. cbn. unfold ExpiryMargin.
    do 2 f_equal. apply Z.ltb_ge. lia.
  - rewrite <- Hrefresh. apply jwt_stale; [exact Hheld |].
    unfold stale, expired. rewrite Hexp. cbn. unfold ExpiryMargin.
    do 2 f_equal. apply Z.ltb_lt. lia.
Qed.

(** X13: [jwt()] touches nothing but the refresh machinery. Whatever the
    state and the arguments, a call leaves the users, the storage, the
    current user and the log as they are; it either changes nothing at
    all or sends exactly one request, the refresh for the held refresh
    token, and registers the one ticket it returns. *)
Theorem jwt_effects (this : loc) (forceRefresh : bool) (now : Z) (w : World) :
  let w' := snd (jwt this forceRefresh now w) in
  heap w' = heap w
  /\ localStorage w' = localStorage w
  /\ currentUser w' = currentUser w
  /\ console w' = console w
  /\ (w' = w
      \/ exists key,
           ToString (get (tokenDetails w this) "refresh_token") = Return key
           /\ fst (jwt this forceRefresh now w)
              = Return (Refresh (length (tickets w)))
           /\ requests w'
              = requests w ++ [refresh_request (field w this "api") key]
           /\ tickets w' = tickets w ++ [mkTicket this key None]
           /\ refreshPromises w'
              = <[key := length (tickets w)]> (refreshPromises w)).
Proof.
  cbv zeta. unfold jwt.
  destruct (is_nullish (tokenDetails w this));
    [repeat apply conj; auto |].
  destruct (if forceRefresh then Return true
            else expired (get (tokenDetails w this) "expires_at") now)
    as [[|] | error]; [| repeat apply conj; auto ..].
  unfold _refreshToken.
  destruct (ToString (get (tokenDetails w this) "refresh_token"))
    as [key | error]; [| repeat apply conj; auto].
  destruct (refreshPromises w !! key); [repeat apply conj; auto |].
  destruct (in_Object_prototype key); [repeat apply conj; auto |].
  cbn. repeat apply conj; try reflexivity.
  right. exists key. repeat apply conj; reflexivity.
Qed.

(** The storage after [_saveSession], as [recoverSession] reads it on a
    page that has it. *)
Lemma saved_session__saveSession this w page :
  isBrowser w = true ->
  String.eqb (JSON_stringify (VObject (_details w this))) EmptyString
  = false ->
  isBrowser page = true ->
  localStorage page = localStorage (_saveSession this w) ->
  saved_session page = Some (JSON_stringify (VObject (_details w this))).
Proof.
  intros Hbrowser Htext Hpage Hstorage.
  rewrite _saveSession_eq, Hbrowser in Hstorage. cbn in Hstorage.
  unfold saved_session, getItem.
  now rewrite Hpage, Hstorage, lookup_insert_eq, Htext.
Qed.

(** X14: a saved session is recovered whole. After [_saveSession] in a
    browser, on a host whose [JSON.parse] reads back what its
    [JSON.stringify] wrote, a page that finds that storage and has no
    current user recovers a new [User] with the saved token (its expiry
    derived afresh), the saved audience and every other saved attribute,
    marked [_fromStorage]; its [api] is the instance passed in or a new
    one for the saved [url], and its [url] is that of its [api]. *)
Theorem saved_session_is_recovered (w page : World) (this : loc)
  (apiInstance api : Value) :
  isBrowser w = true ->
  String.eqb (JSON_stringify (VObject (_details w this))) EmptyString
  = false ->
  JSON_parse (JSON_stringify (VObject (_details w this)))
  = inr (VObject (_details w this)) ->
  truthy (field w this "url") = true ->
  truthy (field w this "token") = true ->
  recovery_api apiInstance (field w this "url") = Return api ->
  isBrowser page = true ->
  localStorage page = localStorage (_saveSession this w) ->
  currentUser page = None ->
  let user := length (heap page) in
  exists w',
    recoverSession apiInstance page = (Return (Some user), w')
    /\ currentUser w' = Some user
    /\ field w' user "token" = with_expiry (field w this "token")
    /\ field w' user "audience" = field w this "audience"
    /\ field w' user "api" = api
    /\ field w' user "url" = get api "apiURL"
    /\ (truthy apiInstance = false ->
        field w' user "url" = field w this "url")
    /\ field w' user "_fromStorage" = VBool true
    /\ (forall k,
          in_User_prototype k = false ->
          k ∉ ["api"; "token"; "audience"; "url"; "_fromStorage"] ->
          field w' user k = field w this k).
Proof.
  intros Hbrowser Htext Hround Hurl Htoken Hrecovery Hpage Hstorage Hcur.
  cbv zeta.
  pose proof (saved_session__saveSession _ _ _ Hbrowser Htext Hpage Hstorage)
    as Hsaved.
  set (snapshot := _details w this) in *.
  assert (Hparse :
    parse (JSON_stringify (VObject snapshot)) ≫= destructure
    = Return (VObject snapshot))
    by (unfold parse; now rewrite Hround).
  assert (Hget : forall k,
    in_User_prototype k || key_in forbiddenSaveAttributes k = false ->
    get (VObject snapshot) k = field w this k)
    by (intros k Hk; now apply get__details).
  assert (Hapi := recovery_api_not_nullish _ _ _ Hrecovery).
  eexists. split.
  { unfold recoverSession. rewrite Hcur, Hsaved.
    rewrite (recover_from_complete _ _ _ _ api Hparse);
      [reflexivity | | |]; rewrite Hget by reflexivity; assumption. }
  rewrite !Hget by reflexivity.
  rewrite (new_User_eq _ _ _ _ Hapi). cbn [snd properties].
  set (w2 := mkWorld _ _ _ _ _ _ _ _).
  assert (Hlt : length (heap page) < length (heap w2))
    by (subst w2; cbn [heap]; rewrite length_app; cbn; lia).
  assert (Hobj : object_at w2 (length (heap page))
    = [("token", with_expiry (field w this "token")); ("api", api);
       ("url", get api "apiURL"); ("audience", field w this "audience")]).
  { subst w2. unfold object_at. cbn [heap].
    now rewrite list_lookup_middle. }
  assert (Hprotected : forall k,
    in_User_prototype k || key_in forbiddenUpdateAttributes k = true ->
    field (_saveUserData (length (heap page)) snapshot true w2)
      (length (heap page)) k
    = get (VObject (object_at w2 (length (heap page)))) k)
    by (intros k Hk; now rewrite field__saveUserData_protected).
  rewrite Hobj in Hprotected.
  assert (Hurl' : field (_saveUserData (length (heap page)) snapshot true w2)
                    (length (heap page)) "url" = get api "apiURL")
    by now rewrite Hprotected.
  repeat apply conj.
  - reflexivity.
  - now rewrite Hprotected.
  - now rewrite Hprotected.
  - now rewrite Hprotected.
  - exact Hurl'.
  - intros Hfalsy. rewrite Hurl'.
    unfold recovery_api, new_API in Hrecovery.
    rewrite Hfalsy, Hurl in Hrecovery.
    destruct (ToString (field w this "url")); [| discriminate].
    now injection Hrecovery as <-.
  - now apply field__saveUserData_marker.
  - intros k Hproto Hk.
    assert (Hne : k <> "api" /\ k <> "token" /\ k <> "audience"
                  /\ k <> "url" /\ k <> "_fromStorage").
    { repeat apply conj; intros ->; apply Hk;
        repeat (first [left | right; try left]). }
    destruct Hne as (Hapi' & Htoken' & Haud' & Hurl'' & Hmarker).
    assert (Hfree : key_in forbiddenUpdateAttributes k = false).
    { unfold key_in. unfold in_User_prototype in Hproto.
      apply orb_false_iff in Hproto as [_ ->]. rewrite orb_false_r.
      apply bool_decide_eq_false_2. unfold forbiddenUpdateAttributes.
      rewrite !elem_of_cons, elem_of_nil. tauto. }
    assert (Hkeep :
      in_User_prototype k || key_in forbiddenSaveAttributes k = false).
    { rewrite Hproto. cbn [orb]. unfold key_in.
      unfold in_User_prototype in Hproto.
      apply orb_false_iff in Hproto as [_ ->]. rewrite orb_false_r.
      apply bool_decide_eq_false_2. unfold forbiddenSaveAttributes.
      rewrite !elem_of_cons, elem_of_nil. tauto. }
    rewrite <- (Hget k Hkeep).
    unfold field. rewrite object_at__saveUserData by exact Hlt.
    rewrite Hobj. cbn [get]. f_equal.
    unfold _saveUserData_object.
    rewrite lookup_prop_assign_ne by congruence.
    rewrite copy_attributes_lookup, Hproto, Hfree. cbn [orb negb].
    rewrite andb_true_r.
    destruct (decide (k ∈ own_keys snapshot)) as [Hin | Hout].
    + rewrite bool_decide_eq_true_2 by exact Hin. cbn [get].
      destruct (lookup_prop k snapshot) eqn:E; [reflexivity |].
      now apply lookup_prop_own_keys in E.
    + rewrite bool_decide_eq_false_2 by exact Hout.
      apply lookup_prop_own_keys in Hout. rewrite Hout.
      cbn [lookup_prop].
      repeat match goal with
      | |- context [String.eqb ?a k] =>
          replace (String.eqb a k) with false
            by (symmetry; apply String.eqb_neq; congruence)
      end.
      reflexivity.
Qed.

End SessionFacts.

(** ** Requests *)

Section RequestFacts2.
Context `{Host}.

Lemma lookup_prop_Some_own_keys k (o : Object) v :
  lookup_prop k o = Some v -> k ∈ own_keys o.
Proof.
  intros Hk. destruct (decide (k ∈ own_keys o)) as [Hin | Hout];
    [exact Hin |].
  apply lookup_prop_own_keys in Hout. congruence.
Qed.

Lemma lookup_prop_fold_assign keys (source target : Object) k :
  lookup_prop k
    (fold_left (fun o k' => assign k' (get (VObject source) k') o) keys
       target)
  = if bool_decide (k ∈ keys) then Some (get (VObject source) k)
    else lookup_prop k target.
Proof.
  revert target.
  induction keys as [| key keys IH]; intros target; cbn [fold_left];
    [reflexivity |].
  rewrite IH. destruct (decide (k = key)) as [-> | Hne].
  - rewrite (bool_decide_eq_true_2 (key ∈ key :: keys)) by left.
    destruct (bool_decide (key ∈ keys)); [reflexivity |].
    apply lookup_prop_assign_eq.
  - assert (Hin : bool_decide (k ∈ key :: keys) = bool_decide (k ∈ keys)).
    { apply bool_decide_ext. rewrite elem_of_cons.
      split; [intros [Heq | Hin]; [contradiction | exact Hin] | now right]. }
    rewrite Hin. destruct (bool_decide (k ∈ keys)); [reflexivity |].
    apply lookup_prop_assign_ne. congruence.
Qed.

(** A key of a literal with a spread has the value of the spread object
    where that has the key, and the value it had before otherwise. *)
Lemma lookup_prop_spread (source target : Object) k :
  lookup_prop k (spread source target)
  = match lookup_prop k source with
    | Some v => Some v
    | None => lookup_prop k target
    end.
Proof.
  unfold spread. rewrite lookup_prop_fold_assign.
  destruct (lookup_prop k source) as [v |] eqn:E.
  - rewrite bool_decide_eq_true_2
      by exact (lookup_prop_Some_own_keys _ _ _ E).
    cbn [get]. now rewrite E.
  - apply lookup_prop_own_keys in E.
    now rewrite bool_decide_eq_false_2.
Qed.

Lemma lookup_prop_delete_prop k k' (o : Object) :
  lookup_prop k (delete_prop k' o)
  = if String.eqb k' k then None else lookup_prop k o.
Proof.
  unfold delete_prop.
  induction o as [| [k0 v0] o IH]; cbn [List.filter lookup_prop fst].
  - now destruct (String.eqb k' k).
  - destruct (String.eqb k0 k') eqn:E0; cbn [negb].
    + apply String.eqb_eq in E0 as ->. rewrite IH.
      now destruct (String.eqb k' k).
    + cbn [lookup_prop]. rewrite IH.
      destruct (String.eqb k0 k) eqn:E1; [| reflexivity].
      apply String.eqb_eq in E1 as ->.
      rewrite String.eqb_sym in E0. now rewrite E0.
Qed.

Lemma lookup_prop_headers (this : API.t) (given : Object) k :
  lookup_prop k (API.headers this given)
  = match lookup_prop k given with
    | Some v => Some v
    | None =>
        if String.eqb "Content-Type" k then Some (VString "application/json")
        else lookup_prop k (API.defaultHeaders this)
    end.
Proof.
  unfold API.headers. rewrite lookup_prop_spread.
  destruct (lookup_prop k given); [reflexivity |].
  destruct (String.eqb "Content-Type" k) eqn:E.
  - apply String.eqb_eq in E as <-. apply lookup_prop_assign_eq.
  - apply String.eqb_neq in E.
    rewrite lookup_prop_assign_ne by exact E.
    rewrite lookup_prop_spread.
    now destruct (lookup_prop k (API.defaultHeaders this)).
Qed.

(** The headers [request] hands to [fetch]. *)
Lemma request_fetch_headers (this : API.t) path options f k :
  API.request_fetch this path options = Return f ->
  exists sent,
    RequestOptions.headers (API.init f) = Some sent
    /\ lookup_prop k sent
       = if String.eqb "Content-Type" k
            && negb (truthy (RequestOptions.body options))
         then None
         else
           match lookup_prop k (default [] (RequestOptions.headers options))
           with
           | Some v => Some v
           | None =>
               if String.eqb "Content-Type" k
               then Some (VString "application/json")
               else lookup_prop k (API.defaultHeaders this)
           end.
Proof.
  unfold API.request_fetch. intros Hfetch.
  destruct (ToString (API.apiURL this)) as [base |]; [| discriminate].
  cbn in Hfetch. injection Hfetch as <-. cbn [API.init].
  eexists. split.
  { destruct (API._sameOrigin this); reflexivity. }
  destruct (truthy (RequestOptions.body options)); cbn [negb].
  - rewrite andb_false_r. apply lookup_prop_headers.
  - rewrite andb_true_r, lookup_prop_delete_prop, lookup_prop_headers.
    now destruct (String.eqb "Content-Type" k).
Qed.

Lemma request_fetch_other_header (this : API.t) path options f k :
  API.request_fetch this path options = Return f ->
  k <> "Content-Type" ->
  exists sent,
    RequestOptions.headers (API.init f) = Some sent
    /\ lookup_prop k sent
       = match lookup_prop k (default [] (RequestOptions.headers options))
         with
         | Some v => Some v
         | None => lookup_prop k (API.defaultHeaders this)
         end.
Proof.
  intros Hfetch Hk.
  destruct (request_fetch_headers this path options f k Hfetch)
    as (sent & Hsent & Hlookup).
  exists sent. split; [exact Hsent |]. rewrite Hlookup.
  apply not_eq_sym in Hk. apply String.eqb_neq in Hk. now rewrite Hk.
Qed.


Lemma is_relative_url_spec u :
  is_relative_url u = true
  <-> exists rest, u = String "/" rest /\ String.prefix "/" rest = false.
Proof.
  split.
  - destruct u as [| c u]; [discriminate |]. cbn [is_relative_url].
    destruct (Ascii.eqb c "/") eqn:Ec.
    + apply Ascii.eqb_eq in Ec as ->. intros Hrel. exists u. split;
        [reflexivity |].
      destruct u as [| d u]; [reflexivity |]. cbn [String.prefix].
      destruct (ascii_dec "/" d) as [<- | Hd]; [discriminate Hrel |].
      reflexivity.
    + apply Ascii.eqb_neq in Ec. intros Hrel.
      destruct c as [[] [] [] [] [] [] [] []]; try discriminate Hrel;
        now contradiction Ec.
  - intros (rest & -> & Hrest). destruct rest as [| d rest];
      [reflexivity |].
    cbn [String.prefix] in Hrest.
    destruct (ascii_dec "/" d) as [<- | Hd].
    + now destruct rest.
    + destruct d as [[] [] [] [] [] [] [] []]; try reflexivity.
      now contradiction Hd.
Qed.

(** X16: where a request goes and with which credentials. For a URL that
    is a string, [new API] never throws, and [request] calls [fetch] at
    the URL followed by the path, with the caller's method, body and
    audience. The credentials default to [same-origin] exactly for a URL
    that starts with one slash and not with two; for any other URL they
    are what the caller passed, absent if nothing was. *)
Theorem request_destination (u path : string) (defaults : option Object)
  (options : RequestOptions.t) :
  exists this f,
    API.new (VString u) defaults = Return this
    /\ API.request_fetch this path options = Return f
    /\ API.url f = u +:+ path
    /\ RequestOptions.method (API.init f) = RequestOptions.method options
    /\ RequestOptions.body (API.init f) = RequestOptions.body options
    /\ RequestOptions.audience (API.init f)
       = RequestOptions.audience options
    /\ RequestOptions.credentials (API.init f)
       = (if is_relative_url u
          then (if truthy (RequestOptions.credentials options)
                then RequestOptions.credentials options
                else VString "same-origin")
          else RequestOptions.credentials options)
    /\ (is_relative_url u = true
        <-> exists rest,
              u = String "/" rest /\ String.prefix "/" rest = false).
Proof.
  assert (Hnew : API.new (VString u) defaults
    = Return (API.mk (VString u) (is_relative_url u) (default [] defaults))).
  { unfold API.new. cbn [truthy].
    destruct (String.eqb u EmptyString) eqn:E; [| reflexivity].
    apply String.eqb_eq in E as ->. reflexivity. }
  eexists _, _. split; [exact Hnew |].
  unfold API.request_fetch.
  cbn [API.apiURL API._sameOrigin ToString mbind Completion_bind].
  split; [reflexivity |]. cbn [API.url API.init].
  repeat apply conj; try (now destruct (is_relative_url u));
    apply is_relative_url_spec.
Qed.

(** X17: how a response settles a request. A response that is not [ok]
    never resolves it: where the content type names JSON and the body
    parses it rejects with a [JSONHTTPError] carrying the parsed body,
    where the content type names no JSON with a [TextHTTPError] carrying
    the text, each with the status text for a message and the status.
    A body announced as JSON that does not parse rejects with the parse
    error even when the response is [ok]; an [ok] response resolves with
    the parsed body or with the text. *)
Theorem request_settles (response : Response.t) :
  let is_json :=
    match Response.contentType response with
    | Some contentType => includes "json" contentType
    | None => false
    end in
  let r := API.request_result (Return response) in
  (Response.ok response = false -> exists failure, r = inl failure)
  /\ (forall v,
        is_json = true ->
        Response.json response = Return v ->
        r = if Response.ok response then inr v
            else
              inl
                (mkFailure
                   (mkError JSONHTTPError
                      (VString (Response.statusText response)) v)
                   (VNumber (Num (Response.status response))) VUndefined))
  /\ (forall error,
        is_json = true ->
        Response.json response = Throw error ->
        r = inl (as_failure error))
  /\ (forall text,
        is_json = false ->
        Response.text response = Return text ->
        r = if Response.ok response then inr (VString text)
            else
              inl
                (mkFailure
                   (mkError TextHTTPError
                      (VString (Response.statusText response)) VUndefined)
                   (VNumber (Num (Response.status response)))
                   (VString text)))
  /\ (forall error,
        is_json = false ->
        Response.text response = Throw error ->
        r = inl (as_failure error)).
Proof.
  cbv zeta. unfold API.request_result, API.parseJsonResponse.
  repeat apply conj.
  - intros Hok. rewrite Hok. cbn [negb].
    destruct (match Response.contentType response with
              | Some contentType => includes "json" contentType
              | None => false
              end).
    + destruct (Response.json response); eauto.
    + destruct (Response.text response); eauto.
  - intros v -> ->. now destruct (Response.ok response).
  - now intros error -> ->.
  - intros text -> ->. now destruct (Response.ok response).
  - now intros error -> ->.
Qed.

End RequestFacts2.

Section RequestFacts3.
Context `{Host}.

Lemma headers_audience_options aud options :
  RequestOptions.headers (audience_options aud options)
  = Some
      (let given := default [] (RequestOptions.headers options) in
       let aud :=
         if truthy (RequestOptions.audience options)
         then RequestOptions.audience options else aud in
       if truthy aud then assign "X-JWT-AUD" aud given else given).
Proof. reflexivity. Qed.

(** The audience header after the first lines of [_request]. *)
Lemma lookup_audience_options aud options k :
  lookup_prop k
    (default [] (RequestOptions.headers (audience_options aud options)))
  = let chosen :=
      if truthy (RequestOptions.audience options)
      then RequestOptions.audience options else aud in
    if String.eqb "X-JWT-AUD" k && truthy chosen then Some chosen
    else lookup_prop k (default [] (RequestOptions.headers options)).
Proof.
  rewrite headers_audience_options. cbv zeta. cbn [default from_option id].
  destruct (truthy (if truthy (RequestOptions.audience options)
                    then RequestOptions.audience options else aud));
    [| now rewrite andb_false_r].
  rewrite andb_true_r.
  destruct (String.eqb "X-JWT-AUD" k) eqn:E.
  - apply String.eqb_eq in E as <-. apply lookup_prop_assign_eq.
  - apply String.eqb_neq in E. now apply lookup_prop_assign_ne.
Qed.

(** X18: what an authenticated request carries. Once the token is there,
    [User._request] sends [Authorization: Bearer <token>] whatever
    [Authorization] the caller or the default headers name. The
    [X-JWT-AUD] header is the audience of the options, else the audience
    of the user, and only when both are falsy the caller's or the
    default one. Every other header but [Content-Type] is the caller's,
    else the default. *)
Theorem authenticated_request (api : API.t) (this_audience token : Value)
  (bearer path : string) (options : RequestOptions.t) (f : API.Fetch) :
  ToString token = Return bearer ->
  User_request_fetch api this_audience token path options = Return f ->
  let given := default [] (RequestOptions.headers options) in
  let inherited k :=
    match lookup_prop k given with
    | Some v => Some v
    | None => lookup_prop k (API.defaultHeaders api)
    end in
  exists sent,
    RequestOptions.headers (API.init f) = Some sent
    /\ lookup_prop "Authorization" sent
       = Some (VString ("Bearer " +:+ bearer))
    /\ lookup_prop "X-JWT-AUD" sent
       = (if truthy (RequestOptions.audience options)
          then Some (RequestOptions.audience options)
          else if truthy this_audience then Some this_audience
          else inherited "X-JWT-AUD")
    /\ (forall k,
          k <> "Authorization" -> k <> "X-JWT-AUD" -> k <> "Content-Type" ->
          lookup_prop k sent = inherited k).
Proof.
  intros Htoken Hfetch. cbv zeta.
  unfold User_request_fetch, bearer_options in Hfetch.
  rewrite Htoken in Hfetch. cbn [mbind Completion_bind] in Hfetch.
  set (options' := RequestOptions.with_headers _ _) in Hfetch.
  assert (Hgiven : forall k,
    lookup_prop k (default [] (RequestOptions.headers options'))
    = if String.eqb "Authorization" k
      then Some (VString ("Bearer " +:+ bearer))
      else lookup_prop k
             (default []
                (RequestOptions.headers
                   (audience_options this_audience options)))).
  { intros k. subst options'. cbn [RequestOptions.with_headers
      RequestOptions.headers default from_option id].
    destruct (String.eqb "Authorization" k) eqn:E.
    - apply String.eqb_eq in E as <-. apply lookup_prop_assign_eq.
    - apply String.eqb_neq in E. now apply lookup_prop_assign_ne. }
  assert (Hsent : forall k, k <> "Content-Type" ->
    exists sent,
      RequestOptions.headers (API.init f) = Some sent
      /\ lookup_prop k sent
         = match
             lookup_prop k (default [] (RequestOptions.headers options'))
           with
           | Some v => Some v
           | None => lookup_prop k (API.defaultHeaders api)
           end).
  { intros k Hk.
    destruct (request_fetch_headers api path options' f k Hfetch)
      as (sent & Hsent & Hlookup).
    exists sent. split; [exact Hsent |]. rewrite Hlookup.
    apply not_eq_sym in Hk. apply String.eqb_neq in Hk. now rewrite Hk. }
  destruct (Hsent "Authorization") as (sent & Hheaders & Hauth);
    [discriminate |].
  exists sent. split; [exact Hheaders |]. repeat apply conj.
  - rewrite Hauth, Hgiven. reflexivity.
  - destruct (Hsent "X-JWT-AUD") as (sent' & Hheaders' & Haud);
      [discriminate |].
    rewrite Hheaders in Hheaders'. injection Hheaders' as <-.
    rewrite Haud, Hgiven, lookup_audience_options. cbv zeta.
    cbn [String.eqb Ascii.eqb Bool.eqb andb].
    destruct (truthy (RequestOptions.audience options)) eqn:Ha.
    + now rewrite Ha.
    + now destruct (truthy this_audience).
  - intros k Hauth' Haud' Hct.
    destruct (Hsent k Hct) as (sent' & Hheaders' & Hk).
    rewrite Hheaders in Hheaders'. injection Hheaders' as <-.
    rewrite Hk, Hgiven, lookup_audience_options. cbv zeta.
    apply not_eq_sym in Hauth', Haud'.
    apply String.eqb_neq in Hauth', Haud'.
    now rewrite Hauth', Haud'.
Qed.

(** X19: what the caller of a request sees of an HTTP failure. A
    response that is not [ok] rejects [GoTrue._request] and, once the
    token is there, [User._request]: for a JSON body with the
    [JSONHTTPError] whose message is the truthy [msg] of the body, else
    the composition of a truthy [error] with [error_description], else
    the status text; for any other body with the [TextHTTPError] whose
    message is the status text. *)
Theorem http_failure_surfaces (response : Response.t) (token : Value)
  (bearer : string) :
  Response.ok response = false ->
  ToString token = Return bearer ->
  let status_text := VString (Response.statusText response) in
  let is_json :=
    match Response.contentType response with
    | Some contentType => includes "json" contentType
    | None => false
    end in
  let r := completion (API.request_result (Return response)) in
  GoTrue._request_result (Return response) = GoTrue_request_result r
  /\ (forall body,
        is_json = true ->
        Response.json response = Return body ->
        let raised :=
          _request_catch (mkError JSONHTTPError status_text body) in
        GoTrue_request_result r = Throw raised
        /\ User_request_result (Return token) r = Throw raised
        /\ (truthy body = true ->
            truthy (get body "msg") = true ->
            raised = mkError JSONHTTPError (get body "msg") body)
        /\ (forall code description,
              truthy body = true ->
              truthy (get body "msg") = false ->
              truthy (get body "error") = true ->
              ToString (get body "error") = Return code ->
              ToString (get body "error_description")
              = Return description ->
              raised
              = mkError JSONHTTPError
                  (VString (code +:+ ": " +:+ description)) body)
        /\ (truthy body = false
            \/ truthy (get body "msg") = false
               /\ truthy (get body "error") = false ->
            raised = mkError JSONHTTPError status_text body))
  /\ (forall text,
        is_json = false ->
        Response.text response = Return text ->
        GoTrue_request_result r
        = Throw (mkError TextHTTPError status_text VUndefined)
        /\ User_request_result (Return token) r
           = Throw (mkError TextHTTPError status_text VUndefined)).
Proof.
  intros Hok Htoken. cbv zeta. split; [reflexivity |].
  unfold API.request_result, API.parseJsonResponse. rewrite Hok.
  cbn [negb]. split.
  - intros body -> ->.
    cbn [completion exception new_JSONHTTPError].
    set (error := mkError JSONHTTPError _ body).
    repeat apply conj.
    + reflexivity.
    + unfold User_request_result. cbn [mbind Completion_bind].
      now rewrite Htoken.
    + intros Hbody Hmsg. now apply (_request_catch_msg error).
    + intros code description Hbody Hmsg Herror Hcode Hdescription.
      now apply (_request_catch_composed error).
    + intros [Hbody | Hrest]; apply (_request_catch_other error);
        [left; exact Hbody | right; exact Hrest].
  - intros text -> ->.
    cbn [completion exception new_TextHTTPError]. split.
    + reflexivity.
    + unfold User_request_result. cbn [mbind Completion_bind].
      now rewrite Htoken.
Qed.

(** X20: the refresh request on the wire. The request [_refreshToken]
    hands to an [API] is sent as a [POST] to the URL of the API followed
    by [/token], form-encoded: its [Content-Type] is
    [application/x-www-form-urlencoded], not the JSON default, and its
    body names the grant and the refresh token. *)
Theorem refresh_request_on_the_wire (api : API.t) (a : Value)
  (key base : string) :
  ToString (API.apiURL api) = Return base ->
  request_options (refresh_request a key) = options_object (refresh_options key)
  /\ request_path (refresh_request a key) = "/token"
  /\ exists f sent,
       API.request_fetch api "/token" (refresh_options key) = Return f
       /\ API.url f = base +:+ "/token"
       /\ RequestOptions.method (API.init f) = VString "POST"
       /\ RequestOptions.body (API.init f)
          = VString ("grant_type=refresh_token&refresh_token=" +:+ key)
       /\ RequestOptions.headers (API.init f) = Some sent
       /\ lookup_prop "Content-Type" sent
          = Some (VString "application/x-www-form-urlencoded").
Proof.
  intros Hbase. split; [reflexivity |]. split; [reflexivity |].
  assert (Hfetch : exists f,
    API.request_fetch api "/token" (refresh_options key) = Return f
    /\ API.url f = base +:+ "/token"
    /\ RequestOptions.method (API.init f) = VString "POST"
    /\ RequestOptions.body (API.init f)
       = VString ("grant_type=refresh_token&refresh_token=" +:+ key)).
  { unfold API.request_fetch. rewrite Hbase.
    cbn [mbind Completion_bind]. eexists. split; [reflexivity |].
    cbn [API.url API.init]. now destruct (API._sameOrigin api). }
  destruct Hfetch as (f & Hfetch & Hurl & Hmethod & Hbody).
  destruct (request_fetch_headers api "/token" (refresh_options key) f
              "Content-Type" Hfetch) as (sent & Hsent & Hct).
  exists f, sent. repeat apply conj; assumption.
Qed.

End RequestFacts3.

(** ** User data *)

Section UserDataFacts.
Context `{Host}.

Lemma heap__refreshSavedSession this w :
  heap (_refreshSavedSession this w) = heap w.
Proof. now rewrite _refreshSavedSession_eq. Qed.




End UserDataFacts.

(** ** The client *)

Section ClientFacts.
Context `{Host}.

Lemma new_API_new apiURL defaults this :
  API.new apiURL defaults = Return this ->
  API.defaultHeaders this = default [] defaults
  /\ API.apiURL this
     = (if truthy apiURL then apiURL else VString EmptyString).
Proof.
  unfold API.new. destruct (ToString _); [| discriminate].
  now intros [= <-].
Qed.

(** [new API(url, {})], the instance [recoverSession] builds, by the
    constructor of the class. *)
Lemma new_API_object url :
  new_API url = (this ← API.new url None; Return (API.object this)).
Proof.
  unfold new_API, API.new.
  now destruct (ToString (if truthy url then url else VString EmptyString)).
Qed.

(** X22: what a client is built with. [new GoTrue] warns exactly when
    the URL starts with [http://]; a URL left out stands for the
    relative [/.netlify/identity], and requests go to the URL followed
    by the path. Every request of the new client carries the client
    name ([gotrue-js] unless one is given) as [X-Nf-Client] unless the
    caller names that header, and as [X-JWT-AUD] the audience of the
    options, else the audience of the client; with neither, the caller's
    header or none. *)
Theorem client_is_built (init : GoTrueInit.t) (g : GoTrue.t)
  (warnings : list string) :
  GoTrue.new init = Return (g, warnings) ->
  let APIUrl :=
    GoTrue.or_default (GoTrueInit.APIUrl init)
      (VString "/.netlify/identity") in
  let clientName :=
    GoTrue.or_default (GoTrueInit.clientName init) (VString "gotrue-js") in
  let audience :=
    GoTrue.or_default (GoTrueInit.audience init) (VString EmptyString) in
  exists s,
    ToString APIUrl = Return s
    /\ warnings
       = (if String.prefix "http://" s then [GoTrue.HTTP_warning] else [])
    /\ GoTrue.setCookie g
       = GoTrue.or_default (GoTrueInit.setCookie init) (VBool false)
    /\ forall path options f,
         GoTrue._request_fetch g path options = Return f ->
         (truthy APIUrl = true -> API.url f = s +:+ path)
         /\ exists sent,
              RequestOptions.headers (API.init f) = Some sent
              /\ lookup_prop "X-Nf-Client" sent
                 = Some
                     (default clientName
                        (lookup_prop "X-Nf-Client"
                           (default [] (RequestOptions.headers options))))
              /\ lookup_prop "X-JWT-AUD" sent
                 = (if truthy (RequestOptions.audience options)
                    then Some (RequestOptions.audience options)
                    else if truthy audience then Some audience
                    else lookup_prop "X-JWT-AUD"
                           (default [] (RequestOptions.headers options))).
Proof.
  intros Hnew. cbv zeta. unfold GoTrue.new in Hnew.
  fold GoTrue.defaultApiURL.
  destruct (ToString (GoTrue.or_default (GoTrueInit.APIUrl init)
                        (VString GoTrue.defaultApiURL))) as [s |] eqn:Hs;
    [| discriminate].
  cbn [mbind Completion_bind] in Hnew.
  destruct (API.new _ _) as [api |] eqn:Hapi; [| discriminate].
  cbn [mbind Completion_bind] in Hnew.
  injection Hnew as <- <-.
  destruct (new_API_new _ _ _ Hapi) as [Hdefaults Hurl].
  cbn [default from_option id] in Hdefaults.
  exists s. repeat apply conj.
  - reflexivity.
  - reflexivity.
  - reflexivity.
  - intros path options f Hfetch.
    unfold GoTrue._request_fetch in Hfetch.
    cbn [GoTrue.api GoTrue.audience] in Hfetch.
    set (aud := if truthy (GoTrue.or_default (GoTrueInit.audience init)
                             (VString EmptyString))
                then GoTrue.or_default (GoTrueInit.audience init)
                       (VString EmptyString)
                else VUndefined) in Hfetch.
    split.
    { intros Htruthy. rewrite Htruthy in Hurl.
      unfold API.request_fetch in Hfetch. rewrite Hurl, Hs in Hfetch.
      cbn [mbind Completion_bind] in Hfetch. now injection Hfetch as <-. }
    destruct (request_fetch_other_header api path
                (audience_options aud options) f "X-Nf-Client" Hfetch)
      as (sent & Hsent & Hclient); [discriminate |].
    destruct (request_fetch_other_header api path
                (audience_options aud options) f "X-JWT-AUD" Hfetch)
      as (sent' & Hsent' & Haud); [discriminate |].
    rewrite Hsent in Hsent'. injection Hsent' as <-.
    rewrite lookup_audience_options, Hdefaults in Hclient, Haud.
    cbv zeta in Hclient, Haud.
    change (String.eqb "X-JWT-AUD" "X-Nf-Client") with false in Hclient.
    change (String.eqb "X-JWT-AUD" "X-JWT-AUD") with true in Haud.
    cbn [andb lookup_prop] in Hclient, Haud.
    change (String.eqb "X-Nf-Client" "X-Nf-Client") with true in Hclient.
    change (String.eqb "X-Nf-Client" "X-JWT-AUD") with false in Haud.
    exists sent. split; [exact Hsent |]. split.
    + rewrite Hclient.
      destruct (lookup_prop "X-Nf-Client"
                  (default [] (RequestOptions.headers options)));
        reflexivity.
    + rewrite Haud. subst aud.
      destruct (truthy (RequestOptions.audience options)) eqn:Ha.
      * now rewrite Ha.
      * destruct (truthy (GoTrue.or_default (GoTrueInit.audience init)
                            (VString EmptyString))) eqn:Hg.
        -- now rewrite Hg.
        -- cbn [truthy].
           destruct (lookup_prop "X-JWT-AUD"
                       (default [] (RequestOptions.headers options)));
             reflexivity.
Qed.

(** X23: the cookie header. With [setCookie] unset,
    [_setRememberHeaders] leaves the client as it is. With it set, every
    later request of the client carries [X-Use-Cookie], [1] for a truthy
    [remember] and [session] otherwise, unless the caller names that
    header; the other default headers stay, and the last call decides. *)
Theorem cookie_header (g : GoTrue.t) (remember earlier : Value) :
  let g' := GoTrue._setRememberHeaders g remember in
  (truthy (GoTrue.setCookie g) = false -> g' = g)
  /\ (truthy (GoTrue.setCookie g) = true ->
      (forall path options f,
         GoTrue._request_fetch g' path options = Return f ->
         exists sent,
           RequestOptions.headers (API.init f) = Some sent
           /\ lookup_prop "X-Use-Cookie" sent
              = Some
                  (default
                     (VString (if truthy remember then "1" else "session"))
                     (lookup_prop "X-Use-Cookie"
                        (default [] (RequestOptions.headers options)))))
      /\ (forall k,
            k <> "X-Use-Cookie" ->
            lookup_prop k (API.defaultHeaders (GoTrue.api g'))
            = lookup_prop k (API.defaultHeaders (GoTrue.api g)))
      /\ GoTrue._setRememberHeaders
           (GoTrue._setRememberHeaders g earlier) remember
         = g').
Proof.
  cbv zeta. unfold GoTrue._setRememberHeaders. split.
  - now intros ->.
  - intros Hset. rewrite Hset. cbn [GoTrue.setCookie]. rewrite Hset.
    cbn [GoTrue.api GoTrue.audience GoTrue.setCookie API.apiURL
         API._sameOrigin API.defaultHeaders].
    repeat apply conj.
    + intros path options f Hfetch.
      unfold GoTrue._request_fetch in Hfetch.
      cbn [GoTrue.api GoTrue.audience] in Hfetch.
      destruct (request_fetch_other_header _ path _ f "X-Use-Cookie" Hfetch)
        as (sent & Hsent & Hcookie); [discriminate |].
      exists sent. split; [exact Hsent |].
      rewrite Hcookie, lookup_audience_options. cbv zeta.
      change (String.eqb "X-JWT-AUD" "X-Use-Cookie") with false.
      cbn [andb API.defaultHeaders].
      rewrite lookup_prop_assign_eq.
      destruct (lookup_prop "X-Use-Cookie"
                  (default [] (RequestOptions.headers options)));
        reflexivity.
    + intros k Hk. apply lookup_prop_assign_ne. congruence.
    + now rewrite assign_assign.
Qed.

Lemma saved_session_removeSavedSession w :
  saved_session (removeSavedSession w) = None.
Proof.
  rewrite removeSavedSession_eq. unfold saved_session, getItem. cbn.
  destruct (isBrowser w); [| reflexivity].
  now rewrite lookup_delete_eq.
Qed.

Lemma saved_session_getUserData_result user r w :
  saved_session w = None ->
  saved_session (snd (getUserData_result user r w)) = None.
Proof.
  intros Hnone. destruct r as [response | error]; [| exact Hnone].
  cbn [getUserData_result snd]. unfold _refreshSavedSession.
  assert (Hsame : saved_session
                    (_saveUserData user (enumerate response) false w)
                  = None) by exact Hnone.
  now rewrite Hsame.
Qed.

(** X24: signing in and the saved session. [login] discards whatever
    session was saved before it builds the new user. Without
    [remember], nothing is saved afterwards either: whatever the program
    does in between short of [_saveSession], the storage holds no
    snapshot when [createUser] is done. With [remember], in a browser,
    the answer of the server is merged and the snapshot of the merged
    user is saved, its token being the token the user holds. *)
Theorem login_and_the_saved_session (g : GoTrue.t)
  (response remember : Value) (now : Z) (w : World) :
  let w1 := snd (fst (GoTrue.login_then g response remember now w)) in
  saved_session w1 = None
  /\ (truthy remember = false ->
      forall ops user r,
        forallb (fun op => negb (is_SaveSession op)) ops = true ->
        saved_session
          (snd (GoTrue.createUser_result user remember r (run_all ops w1)))
        = None)
  /\ (truthy remember = true ->
      forall w2 user data,
        isBrowser w2 = true ->
        let w3 :=
          snd (GoTrue.createUser_result user remember (Return data) w2) in
        fst (GoTrue.createUser_result user remember (Return data) w2)
        = Return user
        /\ localStorage w3 !! storageKey
           = Some (JSON_stringify (VObject (_details w3 user)))
        /\ lookup_prop "token" (_details w3 user)
           = lookup_prop "token" (object_at w2 user)).
Proof.
  cbv zeta.
  assert (Hw1 :
    saved_session (snd (fst (GoTrue.login_then g response remember now w)))
    = None).
  { unfold GoTrue.login_then, GoTrue.createUser.
    set (w0 := removeSavedSession w).
    assert (H0 : saved_session w0 = None)
      by apply saved_session_removeSavedSession.
    destruct (new_User_world
                (API.object
                   (GoTrue.api (GoTrue._setRememberHeaders g remember)))
                response
                (if truthy
                      (GoTrue.audience
                         (GoTrue._setRememberHeaders g remember))
                 then GoTrue.audience (GoTrue._setRememberHeaders g remember)
                 else VString EmptyString) w0)
      as (r & o & logs & user & -> & _).
    set (w' := mkWorld _ _ _ _ _ _ _ _).
    assert (H' : saved_session w' = None)
      by (rewrite <- H0; now apply saved_session_ext).
    destruct r as [u | error]; [| exact H'].
    destruct (jwt_world u false now w')
      as [(p & Hjwt & _) | (key & _ & _ & Hjwt)]; rewrite Hjwt;
      cbn [fst snd]; [exact H' |].
    rewrite <- H'. now apply saved_session_ext. }
  repeat apply conj.
  - exact Hw1.
  - intros Hremember ops user r Hops.
    unfold GoTrue.createUser_result. rewrite Hremember.
    pose proof (saved_session_getUserData_result user r _
                  (saved_session_run_all ops _ Hw1 Hops)) as Hdone.
    now destruct (getUserData_result user r _) as [[] ?].
  - intros Hremember w2 user data Hbrowser.
    unfold GoTrue.createUser_result. rewrite Hremember.
    cbn [getUserData_result fst snd].
    set (w2' := _refreshSavedSession user _).
    assert (Hb : isBrowser w2' = true)
      by (subst w2'; now rewrite _refreshSavedSession_eq).
    repeat apply conj.
    + reflexivity.
    + rewrite _saveSession_eq, Hb. cbn [localStorage].
      rewrite lookup_insert_eq. do 3 f_equal.
    + rewrite _details_lookup. cbn [orb].
      replace (object_at (_saveSession user w2') user)
        with (object_at w2' user)
        by (unfold object_at; now rewrite _saveSession_eq).
      subst w2'. unfold object_at. rewrite heap__refreshSavedSession.
      rewrite _saveUserData_world. cbn [heap].
      rewrite list_lookup_alter_eq.
      destruct (heap w2 !! user) as [o |]; [| reflexivity].
      cbn [fmap option_fmap option_map default from_option id].
      now rewrite _saveUserData_object_protected.
Qed.



End ClientFacts.

(** * The theorems at concrete inputs, on the test host *)

(** Membership in a list of literals, by evaluation. *)
Ltac by_evaluation :=
  match goal with
  | |- ?P => apply (@bool_decide_unpack P _); vm_compute; exact I
  end.

(** The token of the test suite decodes to [exp = 1000]. *)
Example john_doe_payload :
  Base64.atob
    "eyJzdWIiOiIxMjM0NTY3ODkwIiwibmFtZSI6IkpvaG4gRG9lIiwiaWF0IjoxNTE2MjM5MDIyLCJleHAiOjEwMDB9"
  = Some john_doe_text.
Proof. vm_compute. reflexivity. Qed.

(** C1: a stale token whose refresh token is the string [constructor].
    No ticket is registered for it, yet each call of [jwt()] returns the
    inherited member of [refreshPromises] instead of a ticket, and no
    request is ever sent. *)
Theorem inherited_refresh_token_sends_nothing :
  let w := world_of_token constructor_token in
  stale w 0 today
  /\ refreshPromises w !! "constructor" = None
  /\ jwt_each 0 [today; today] w
     = ([Return (Inherited "constructor"); Return (Inherited "constructor")],
        w)
  /\ requests w = [].
Proof. vm_compute. repeat apply conj; reflexivity. Qed.

(** The scenario of the test suite: three concurrent callers, one
    request, one new token for all. *)
Example three_callers_one_request :
  let '(ps, w1) := jwt_each 0 [today; today; today] stale_world in
  let w2 := settle 0 (Responded (token_response "header.e30.secret" "r2"))
              w1 in
  ps = [Return (Refresh 0); Return (Refresh 0); Return (Refresh 0)]
  /\ length (requests w1) = 1
  /\ await (Refresh 0) w2 = Some (Return (VString "header.e30.secret")).
Proof. vm_compute. repeat apply conj; reflexivity. Qed.

(** A refresh token that is an object with a [toString] property of its
    own cannot be printed: the call throws and nothing is sent. *)
Example unprintable_refresh_token :
  let token :=
    VObject
      [("access_token", VString "header.e30.secret");
       ("expires_at", VNumber (Num 0));
       ("refresh_token", VObject [("toString", VNumber (Num 1))])] in
  let w := world_of_token token in
  jwt 0 false today w
  = (Throw
       (new_TypeError
          (NotConvertible (VObject [("toString", VNumber (Num 1))]))), w).
Proof. vm_compute. reflexivity. Qed.

(** A response that carries an [expires_at] of its own keeps it when the
    payload does not decode, and is judged by it. *)
Example carried_expiry_is_judged :
  let response :=
    VObject
      [("access_token", VString "header.invalid.secret");
       ("expires_at", VNumber (Num 0));
       ("refresh_token", VString "r1")] in
  let '(this, w') :=
    new_User test_api response (VString EmptyString) empty_world in
  this = Return 0
  /\ length (console w') = 1
  /\ tokenDetails w' 0 = response
  /\ fst (jwt 0 false today w') = Return (Refresh 0).
Proof. vm_compute. repeat apply conj; reflexivity. Qed.

Lemma jwt_freshness_witness :
  jwt 0 false today boundary_world
  = (Return (Promise_resolve (VString "header.e30.secret")), boundary_world)
  /\ jwt 0 false (today + 1) boundary_world
     = _refreshToken 0 (VString "r1") boundary_world.
Proof.
  split.
  - apply (proj1 (jwt_freshness boundary_world 0 (today + 60000) today
                    eq_refl eq_refl)).
    unfold today. lia.
  - apply (proj2 (jwt_freshness boundary_world 0 (today + 60000)
                    (today + 1) eq_refl eq_refl)).
    unfold today. lia.
Defined.

Lemma freshness_boundary_counterexample : ~ freshness_as_specified.
Proof.
  intros Hclaim.
  destruct (Hclaim TestHost boundary_world 0 (today + 60000)%Z today
              eq_refl eq_refl) as [_ Hstale].
  assert (Hle : (today + 60000 - today <= 60000)%Z) by lia.
  specialize (Hstale Hle). vm_compute in Hstale. discriminate Hstale.
Qed.

Lemma failed_refresh_clears_session_witness :
  let w' := settle 0 TimedOut pending_world in
  refreshPromises w' !! "r1" = None
  /\ tokenDetails w' 0 = VNull
  /\ saved_session w' = None
  /\ (isBrowser w' = true -> localStorage w' !! storageKey = None)
  /\ currentUser w' = None
  /\ await (Refresh 0) w' = Some (Throw (new_Error "Token refresh timeout")).
Proof.
  apply (failed_refresh_clears_session 0 TimedOut pending_world 0 "r1"
           (new_Error "Token refresh timeout")).
  - reflexivity.
  - vm_compute. lia.
  - reflexivity.
Defined.


Lemma merge_protects_and_copies_witness :
  let attributes :=
    [("email", VString "user@example.com"); ("token", VString "forged")] in
  let w' := _saveUserData 0 attributes false stale_world in
  field w' 0 "token" = field stale_world 0 "token"
  /\ field w' 0 "email" = VString "user@example.com".
Proof.
  cbv zeta. split.
  - apply (proj1 (merge_protects_and_copies stale_world 0
                    [("email", VString "user@example.com");
                     ("token", VString "forged")] false "token")).
    left. by_evaluation.
  - apply (proj1 (proj2 (merge_protects_and_copies stale_world 0
                           [("email", VString "user@example.com");
                            ("token", VString "forged")] false "email"))).
    + vm_compute. lia.
    + by_evaluation.
    + by_evaluation.
    + reflexivity.
    + discriminate.
Defined.

Lemma merge_marker_counterexample : ~ merge_as_specified.
Proof.
  intros Hclaim.
  destruct (Hclaim stale_world 0 [("_fromStorage", VString "x")] true
              "_fromStorage") as [_ Hcopy].
  - vm_compute. lia.
  - assert (Hin : "_fromStorage" ∈ own_keys [("_fromStorage", VString "x")])
      by by_evaluation.
    assert (Hfree : "_fromStorage" ∉ forbiddenUpdateAttributes)
      by by_evaluation.
    specialize (Hcopy Hin Hfree eq_refl).
    vm_compute in Hcopy. discriminate Hcopy.
Qed.





Lemma request_error_rewritten_witness :
  User_request_result (Return (VString "header.e30.secret"))
    (Throw (mkError JSONHTTPError (VString "Bad Request") invalid_grant))
  = Throw
      (mkError JSONHTTPError (VString "invalid_grant: Invalid credentials")
         invalid_grant).
Proof.
  apply (proj1 (request_error_rewritten (Return (VString "header.e30.secret"))
                  (Throw (mkError JSONHTTPError (VString "Bad Request")
                            invalid_grant))
                  (mkError JSONHTTPError (VString "Bad Request") invalid_grant)
                  eq_refl)).
Defined.

Lemma empty_msg_counterexample : ~ message_rule_as_specified.
Proof.
  intros Hclaim.
  destruct (Hclaim TestHost
              (mkError JSONHTTPError (VString "Bad Request")
                 (VObject [("msg", VString EmptyString)]))
              [("msg", VString EmptyString)] eq_refl eq_refl) as [Hmsg _].
  specialize (Hmsg (VString EmptyString) eq_refl).
  vm_compute in Hmsg. discriminate Hmsg.
Qed.


(** * The further properties at concrete inputs, on the test host *)

Lemma urlBase64Decode_round_trip_witness :
  urlBase64Decode (Base64.encode_url "{}") = Return "{}"
  /\ urlBase64Decode (Base64.encode_url_padded "{}") = Return "{}"
  /\ urlBase64Decode (Base64.encode "{}") = Return "{}".
Proof.
  refine (urlBase64Decode_round_trip "{}" _).
  intros Hno_atob. discriminate Hno_atob.
Defined.

Lemma urlBase64Decode_foreign_witness :
  urlBase64Decode "e3!0" = Throw (new_Error "Illegal base64url string!")
  \/ urlBase64Decode "e3!0"
     = Throw (mkError InvalidCharacterError (VString atob_error) VUndefined).
Proof.
  apply (urlBase64Decode_foreign "!" "e3!0"); reflexivity.
Defined.

Lemma registry_invariant_witness :
  let w' := run_all session_script empty_world in
  registry_consistent w'
  /\ (forall t1 t2 this1 this2 key,
        tickets w' !! t1 = Some (mkTicket this1 key None) ->
        tickets w' !! t2 = Some (mkTicket this2 key None) ->
        t1 = t2)
  /\ (forall this forceRefresh now t w'',
        jwt this forceRefresh now w' = (Return (Refresh t), w'') ->
        exists owner key, tickets w'' !! t = Some (mkTicket owner key None)).
Proof.
  apply (registry_invariant session_script empty_world); reflexivity.
Defined.

Lemma persistence_opt_in_witness :
  saved_session (run_all session_script empty_world) = None.
Proof.
  apply (persistence_opt_in session_script empty_world); reflexivity.
Defined.

Lemma identity_fixed_witness :
  field
    (run_all
       [Jwt 0 false today;
        SaveUserData 0 [("api", VString "forged")] false;
        Settle 0 TimedOut]
       stale_world) 0 "api"
  = field stale_world 0 "api".
Proof.
  apply identity_fixed.
  - vm_compute. lia.
  - by_evaluation.
Defined.




Lemma refreshed_token_is_used_witness :
  let response := token_response john_doe_token "r2" in
  let w' := settle 0 (Responded response) pending_world in
  jwt 0 false 0 w' = (Return (Promise_resolve (VString john_doe_token)), w')
  /\ jwt 0 false today w' = _refreshToken 0 (VString "r2") w'.
Proof.
  cbv zeta.
  destruct (refreshed_token_is_used 0 pending_world 0 "r1"
              (token_response john_doe_token "r2") 1000000 0)
    as [Hfresh _];
    [reflexivity | vm_compute; lia | reflexivity | vm_compute; reflexivity |].
  destruct (refreshed_token_is_used 0 pending_world 0 "r1"
              (token_response john_doe_token "r2") 1000000 today)
    as [_ Hstale];
    [reflexivity | vm_compute; lia | reflexivity | vm_compute; reflexivity |].
  split.
  - apply Hfresh. lia.
  - apply Hstale. unfold today. lia.
Defined.

Lemma saved_session_is_recovered_witness :
  exists w',
    recoverSession VUndefined recovery_world = (Return (Some 0), w')
    /\ field w' 0 "token"
       = with_expiry (field snapshot_world 0 "token")
    /\ field w' 0 "audience" = VString EmptyString
    /\ field w' 0 "url" = VString "/.netlify/identity"
    /\ field w' 0 "_fromStorage" = VBool true.
Proof.
  destruct (saved_session_is_recovered snapshot_world recovery_world 0
              VUndefined
              (VObject
                 [("apiURL", VString "/.netlify/identity");
                  ("_sameOrigin", VBool true);
                  ("defaultHeaders", VObject [])]))
    as (w' & Hrecover & _ & Htoken & Haudience & _ & _ & Hurl & Hmarker & _);
    try (vm_compute; reflexivity).
  exists w'. repeat apply conj.
  - exact Hrecover.
  - exact Htoken.
  - exact Haudience.
  - exact (Hurl eq_refl).
  - exact Hmarker.
Defined.


Lemma request_settles_witness :
  API.request_result (Return bad_request)
  = inl
      (mkFailure (mkError JSONHTTPError (VString "Bad Request") invalid_grant)
         (VNumber (Num 400)) VUndefined).
Proof.
  destruct (request_settles bad_request) as (_ & Hjson & _).
  exact (Hjson invalid_grant eq_refl eq_refl).
Defined.

Lemma authenticated_request_witness :
  exists f sent,
    User_request_fetch default_API (VString "my-site")
      (VString "header.e30.secret") "/user" put_options = Return f
    /\ RequestOptions.headers (API.init f) = Some sent
    /\ lookup_prop "Authorization" sent
       = Some (VString "Bearer header.e30.secret")
    /\ lookup_prop "X-JWT-AUD" sent = Some (VString "my-site")
    /\ lookup_prop "X-Trace" sent = Some (VString "1").
Proof.
  destruct (authenticated_request default_API (VString "my-site")
              (VString "header.e30.secret") "header.e30.secret" "/user"
              put_options _ eq_refl eq_refl)
    as (sent & Hsent & Hauth & Haud & Hother).
  eexists _, sent. repeat apply conj.
  - reflexivity.
  - exact Hsent.
  - exact Hauth.
  - exact Haud.
  - rewrite Hother by discriminate. reflexivity.
Defined.

Lemma http_failure_surfaces_witness :
  GoTrue._request_result (Return bad_request)
  = Throw
      (mkError JSONHTTPError (VString "invalid_grant: Invalid credentials")
         invalid_grant).
Proof.
  destruct (http_failure_surfaces bad_request (VString "header.e30.secret")
              "header.e30.secret" eq_refl eq_refl) as (Hresult & Hjson & _).
  destruct (Hjson invalid_grant eq_refl eq_refl)
    as (Hraised & _ & _ & Hcomposed & _).
  rewrite Hresult, Hraised. apply f_equal.
  exact (Hcomposed "invalid_grant" "Invalid credentials"
           eq_refl eq_refl eq_refl eq_refl eq_refl).
Defined.

Lemma refresh_request_on_the_wire_witness :
  exists f sent,
    API.request_fetch default_API "/token" (refresh_options "r1") = Return f
    /\ API.url f = "/.netlify/identity/token"
    /\ RequestOptions.headers (API.init f) = Some sent
    /\ lookup_prop "Content-Type" sent
       = Some (VString "application/x-www-form-urlencoded").
Proof.
  destruct (refresh_request_on_the_wire default_API VUndefined "r1"
              "/.netlify/identity" eq_refl)
    as (_ & _ & f & sent & Hfetch & Hurl & _ & _ & Hsent & Htype).
  exists f, sent. repeat apply conj; assumption.
Defined.


Lemma client_is_built_witness :
  exists g,
    GoTrue.new http_init = Return (g, [GoTrue.HTTP_warning])
    /\ GoTrue.setCookie g = VBool false.
Proof.
  eexists. split; [reflexivity |].
  destruct (client_is_built http_init _ _ eq_refl)
    as (s & _ & _ & Hcookie & _).
  exact Hcookie.
Defined.

Lemma cookie_header_witness :
  exists f sent,
    GoTrue._request_fetch
      (GoTrue._setRememberHeaders default_client (VBool true)) "/user"
      RequestOptions.empty = Return f
    /\ RequestOptions.headers (API.init f) = Some sent
    /\ lookup_prop "X-Use-Cookie" sent = Some (VString "1").
Proof.
  destruct (cookie_header default_client (VBool true) (VBool false))
    as [_ Hset].
  destruct (Hset eq_refl) as (Hfetch & _ & _).
  destruct (Hfetch "/user" RequestOptions.empty _ eq_refl)
    as (sent & Hsent & Hcookie).
  eexists _, sent. repeat apply conj.
  - reflexivity.
  - exact Hsent.
  - exact Hcookie.
Defined.

Lemma login_and_the_saved_session_witness :
  let response := token_response john_doe_token "r1" in
  let w1 :=
    snd (fst (GoTrue.login_then default_client response (VBool false) today
                saved_world)) in
  saved_session w1 = None
  /\ saved_session
       (snd (GoTrue.createUser_result 1 (VBool false)
               (Return (VObject [("email", VString "user@example.com")]))
               (run_all [Settle 0 TimedOut] w1)))
     = None.
Proof.
  cbv zeta.
  destruct (login_and_the_saved_session default_client
              (token_response john_doe_token "r1") (VBool false) today
              saved_world) as (Hdiscarded & Hforgotten & _).
  split; [exact Hdiscarded |].
  apply (Hforgotten eq_refl); reflexivity.
Defined.


Lemma nothing_persists_outside_a_browser_witness :
  let server := mkWorld false ∅ None ∅ [] [] [] [] in
  let w' := run_all (session_script ++ [SaveSession 0]) server in
  isBrowser w' = false
  /\ localStorage w' = ∅
  /\ saved_session w' = None
  /\ (currentUser w' = None ->
      recoverSession VUndefined w' = (Return None, w')).
Proof.
  apply (nothing_persists_outside_a_browser
           (session_script ++ [SaveSession 0])
           (mkWorld false ∅ None ∅ [] [] [] []) VUndefined).
  reflexivity.
Defined.
